(** * DebateRAG: the debate engine, its batched adapter and the websocket bridge

    A shallow embedding of [debate_pipeline.py] and [app.py].

    - Python [str] is [string]; a character is one [ascii] code (code points
      above 255 are outside the model), [len] is [String.length].
    - Python [int] is [Z].
    - A generator is a computation in the monad [Gen]: it carries the trace of
      what the generator did (the events it yielded and the agent calls it
      made, in order) and how it ended (with an exception or normally).
    - The external services (environment, chat model, text splitter, vector
      store, agent runtime, clock) are the fields of a [World]. *)

From Stdlib Require Import String Ascii List ZArith Lia Bool QArith.
From Stdlib Require Import DecimalString.
Import ListNotations.
Local Open Scope string_scope.
Local Open Scope Z_scope.

(* ================================================================== *)
(** ** Python text primitives *)
(* ================================================================== *)

Module PyStr.

(** The newline character of the prompt templates. *)
Definition nl : string := String (ascii_of_nat 10) EmptyString.

(** [str.isspace] on one character, for the code points below 256. *)
Definition isspace (c : ascii) : bool :=
  let n := nat_of_ascii c in
  (((9 <=? n) && (n <=? 13)) || ((28 <=? n) && (n <=? 32))
   || (n =? 133) || (n =? 160))%nat.

(** Truth value of a string: non-empty. *)
Definition truthy (s : string) : bool :=
  match s with EmptyString => false | String _ _ => true end.

Fixpoint lstrip (s : string) : string :=
  match s with
  | EmptyString => EmptyString
  | String c s' => if isspace c then lstrip s' else s
  end.

Fixpoint rstrip (s : string) : string :=
  match s with
  | EmptyString => EmptyString
  | String c s' =>
      match rstrip s' with
      | EmptyString => if isspace c then EmptyString else String c EmptyString
      | r => String c r
      end
  end.

(** [s.strip()] *)
Definition strip (s : string) : string := lstrip (rstrip s).

(** [s.split()] without a separator: the maximal runs of non-space
    characters.  [cur] is the run being read. *)
Fixpoint split_from (cur : string) (s : string) : list string :=
  match s with
  | EmptyString => if truthy cur then [cur] else []
  | String c s' =>
      if isspace c
      then (if truthy cur then cur :: split_from EmptyString s'
            else split_from EmptyString s')
      else split_from (cur ++ String c EmptyString) s'
  end.

Definition split (s : string) : list string := split_from EmptyString s.

(** [sep.join(parts)] *)
Definition join (sep : string) (parts : list string) : string :=
  String.concat sep parts.

(** [s[:stop]], with Python's reading of a negative or too large [stop]. *)
Definition slice_to (s : string) (stop : Z) : string :=
  let n := Z.of_nat (String.length s) in
  let k := if stop <? 0 then Z.max 0 (n + stop) else Z.min stop n in
  substring 0 (Z.to_nat k) s.

(** [str(n)] for an integer. *)
Definition str_of_Z (n : Z) : string := NilZero.string_of_int (Z.to_int n).

(** [len(l)] as a Python integer. *)
Definition len {A : Type} (l : list A) : Z := Z.of_nat (List.length l).

Definition strlen (s : string) : Z := Z.of_nat (String.length s).

(** [s] ends with [suffix]. *)
Definition endswith (s suffix : string) : Prop :=
  exists front, s = front ++ suffix.

(** [part] occurs in [s]. *)
Definition contains (s part : string) : Prop :=
  exists front back, s = front ++ part ++ back.

(** [enumerate(l, start)] *)
Fixpoint enumerate {A : Type} (start : Z) (l : list A) : list (Z * A) :=
  match l with
  | [] => []
  | x :: l' => (start, x) :: enumerate (start + 1) l'
  end.

(** [range(lo, hi)] *)
Definition range (lo hi : Z) : list Z :=
  map (fun i => lo + Z.of_nat i) (seq 0 (Z.to_nat (hi - lo))).

End PyStr.
Import PyStr.

(* ================================================================== *)
(** ** debate_pipeline.py: constants and [_compact] *)
(* ================================================================== *)

Definition DEFAULT_MODEL : string := "gpt-5-nano-2025-08-07".
Definition EMBEDDING_MODEL : string := "text-embedding-3-large".

(** The default of [_compact]'s [limit] parameter. *)
Definition compact_default_limit : Z := 200.

Definition _compact (text : string) (limit : Z) : string :=
  let cleaned := join " " (split text) in
  if strlen cleaned <=? limit then cleaned
  else rstrip (slice_to cleaned (limit - 3)) ++ "...".


(* ================================================================== *)
(** ** Data model *)
(* ================================================================== *)

(** The values the dictionaries of the program hold. *)
Inductive pyval : Type :=
| PInt (n : Z)
| PStr (s : string)
| PFloat (x : Q).

(** A Python [dict] with string keys, in insertion order. *)
Definition dict : Type := list (string * pyval).

(** [d.get(key)] *)
Fixpoint dict_get (key : string) (d : dict) : option pyval :=
  match d with
  | [] => None
  | (k, v) :: d' => if String.eqb k key then Some v else dict_get key d'
  end.

(** How an f-string renders the result of [dict.get]. *)
Definition format_value (v : option pyval) : string :=
  match v with
  | None => "None"
  | Some (PInt n) => str_of_Z n
  | Some (PStr s) => s
  | Some (PFloat _) => "<float>"
  end.

(** A chunk as the text splitter and the vector store hand it over
    (langchain's [Document]). *)
Record Document : Type := {
  page_content : string;
  metadata : dict
}.

Record DebateStep : Type := {
  stage : string;
  speaker : string;
  message : string;
  round : option Z;
  doc_id : option pyval
}.

(** The dictionaries that travel from the engine to the client, by their
    ["event"] key. *)
Inductive event : Type :=
| EvStep (data : DebateStep)
| EvDone (final_answer : string) (stats : dict) (query : string)
| EvError (detail : string)
| EvValidationError (errors : list string)
| EvReady
| EvSentinel.

(** The exceptions ([Exception] subclasses) the program raises or handles. *)
Inductive exn : Type :=
| RuntimeError (msg : string)
| ValueError (msg : string)
| OtherException (cls msg : string).

(** [str(exc)] *)
Definition str_exn (e : exn) : string :=
  match e with
  | RuntimeError msg | ValueError msg | OtherException _ msg => msg
  end.

(** One value of [agent.stream(..., stream_mode="values")]: the message
    list of the agent state, which always holds the user message. *)
Record AgentEvent : Type := {
  first_message : string;
  later_messages : list string
}.

(** [event["messages"][-1].content] *)
Definition last_content_of (ev : AgentEvent) : string :=
  List.last (later_messages ev) (first_message ev).

(* ================================================================== *)
(** ** External services and the generator monad *)
(* ================================================================== *)

Record World (Model Store : Type) : Type := {
  (** [os.getenv] *)
  getenv : string -> option string;
  (** [init_chat_model(name, temperature=t)] *)
  init_chat_model : string -> Z -> exn + Model;
  (** [InMemoryVectorStore(OpenAIEmbeddings(model=name))] *)
  new_vector_store : string -> exn + Store;
  (** [RecursiveCharacterTextSplitter(chunk_size, chunk_overlap,
      add_start_index).create_documents(texts, metadatas)] *)
  create_documents : Z -> Z -> bool -> list string -> list dict -> exn + list Document;
  (** [vector_store.add_documents(documents)], returning the updated store *)
  add_documents : Store -> list Document -> exn + Store;
  (** [vector_store.similarity_search(query, k)] *)
  similarity_search : Store -> string -> Z -> exn + list Document;
  (** [create_agent(model, tools=[], system_prompt).stream(user message)],
      drained *)
  agent_stream : Model -> string -> string -> exn + list AgentEvent;
  (** the n-th reading of [time.perf_counter()] in a run *)
  perf_counter : nat -> Q;
  (** [round(x, ndigits)] on floats *)
  round_float : Q -> Z -> Q
}.

Arguments getenv {Model Store}.
Arguments init_chat_model {Model Store}.
Arguments new_vector_store {Model Store}.
Arguments create_documents {Model Store}.
Arguments add_documents {Model Store}.
Arguments similarity_search {Model Store}.
Arguments agent_stream {Model Store}.
Arguments perf_counter {Model Store}.
Arguments round_float {Model Store}.

(** What a run of the generator does, in order. *)
Inductive effect (Model : Type) : Type :=
| Yield (e : event)
| AgentCall (model : Model) (system_prompt : string) (query : string).

Arguments Yield {Model}.
Arguments AgentCall {Model}.

Module GenMonad.

(** A generator body: the trace it leaves and how it ends. *)
Definition Gen (Model A : Type) : Type := (list (effect Model) * (exn + A))%type.

Definition ret {Model A} (a : A) : Gen Model A := ([], inr a).

Definition bind {Model A B} (m : Gen Model A) (k : A -> Gen Model B) : Gen Model B :=
  match m with
  | (t, inl e) => (t, inl e)
  | (t, inr a) => let '(t', r) := k a in ((t ++ t')%list, r)
  end.

Definition raise {Model A} (e : exn) : Gen Model A := ([], inl e).

(** A call of an external service that leaves no trace. *)
Definition call {Model A} (r : exn + A) : Gen Model A := ([], r).

Definition yield {Model} (e : event) : Gen Model unit := ([Yield e], inr tt).

(** [for x in xs: body], threading the variables the body assigns. *)
Fixpoint for_each {Model A S} (xs : list A) (s : S)
    (body : A -> S -> Gen Model S) : Gen Model S :=
  match xs with
  | [] => ret s
  | x :: xs' => bind (body x s) (fun s' => for_each xs' s' body)
  end.

Declare Scope gen_scope.
Delimit Scope gen_scope with gen.
Notation "x <- m ;; k" := (bind m (fun x => k))
  (at level 61, m at next level, right associativity) : gen_scope.
Notation "' p <- m ;; k" := (bind m (fun x => match x with p => k end))
  (at level 61, p pattern, m at next level, right associativity) : gen_scope.
Notation "m ;; k" := (bind m (fun _ => k))
  (at level 61, right associativity) : gen_scope.

(** The events a trace yielded, in order. *)
Definition yielded {Model} (t : list (effect Model)) : list event :=
  flat_map (fun x => match x with Yield e => [e] | AgentCall _ _ _ => [] end) t.

(** The agent calls of a trace, in order: model, system prompt, query. *)
Definition agent_calls {Model} (t : list (effect Model)) : list (Model * string * string) :=
  flat_map (fun x => match x with
                     | Yield _ => []
                     | AgentCall m p q => [(m, p, q)]
                     end) t.

End GenMonad.
Import GenMonad.
Local Open Scope gen_scope.

(* ================================================================== *)
(** ** debate_pipeline.py: the prompt templates, [str.format] applied *)
(* ================================================================== *)

Definition evidence_prompt (query doc : string) : string :=
  "You are an agent reading a single document to answer the user question."
  ++ nl ++ nl
  ++ "Question: " ++ query ++ nl
  ++ "Document: " ++ doc ++ nl
  ++ "Only use the document. If the document does not contain an answer, say so. "
  ++ "Provide a short answer and a brief explanation." ++ nl
  ++ "Format: Answer: <answer>. Explanation: <why>.".

Definition ambiguity_prompt (query responses : string) : string :=
  "You detect ambiguity versus factual conflict in answers." ++ nl ++ nl
  ++ "Question: " ++ query ++ nl
  ++ "Responses: " ++ responses ++ nl
  ++ "If answers conflict, suggest clarification questions or guidance to disambiguate. "
  ++ "If the question is ambiguous, list the plausible interpretations." ++ nl
  ++ "Format: Guidance: <guidance>. Questions: <questions>.".

Definition debate_prompt (query doc responses guidance : string) : string :=
  "You are an agent refining your answer using peer responses and ambiguity guidance."
  ++ nl ++ nl
  ++ "Question: " ++ query ++ nl
  ++ "Document: " ++ doc ++ nl
  ++ "Peer responses: " ++ responses ++ nl
  ++ "Ambiguity guidance: " ++ guidance ++ nl
  ++ "Only use the document and the provided responses. Clarify what you are referring to."
  ++ nl
  ++ "Format: Answer: <answer>. Explanation: <why>.".

Definition summarizer_prompt (query responses : string) : string :=
  "You synthesize a final answer based only on the provided responses." ++ nl ++ nl
  ++ "Question: " ++ query ++ nl
  ++ "Responses: " ++ responses ++ nl
  ++ "If answers disagree because the question is ambiguous, list all valid answers "
  ++ "and ask the user to clarify." ++ nl
  ++ "Format: Final Answer: <answer>.".

(** [DebateStep(stage=..., speaker=..., message=...)], [round] and [doc_id]
    left at their default [None]. *)
Definition plain_step (stage speaker message : string) : DebateStep :=
  {| stage := stage; speaker := speaker; message := message;
     round := None; doc_id := None |}.

(** The last content seen in the agent's stream that is not empty. *)
Definition last_nonempty_content (events : list AgentEvent) : string :=
  fold_left (fun last_content ev =>
               let content := last_content_of ev in
               if truthy content then content else last_content)
            events EmptyString.

(** [not os.getenv(name)] *)
Definition env_missing (v : option string) : bool :=
  match v with
  | None => true
  | Some s => negb (truthy s)
  end.

(** [[doc.strip() for doc in documents if doc.strip()]] *)
Definition clean_documents (documents : list string) : list string :=
  map strip (filter (fun doc => truthy (strip doc)) documents).

(** The metadata list of [stream_debate], one dictionary per cleaned
    document. *)
Definition build_metadatas (n : Z) : list dict :=
  map (fun index =>
         [("doc_id", PInt (index + 1));
          ("source", PStr ("user_doc_" ++ str_of_Z (index + 1)))])
      (range 0 n).

(** One line of the retrieval summary. *)
Definition retrieval_line (limit : Z) (item : Z * Document) : string :=
  let '(idx, doc) := item in
  "[" ++ str_of_Z idx ++ "] Doc " ++ format_value (dict_get "doc_id" (metadata doc))
  ++ ": " ++ _compact (page_content doc) limit.

Section Engine.

Context {Model Store : Type} (w : World Model Store).

Definition _run_agent (model : Model) (query system_prompt : string)
  : Gen Model string :=
  bind ([AgentCall model system_prompt query], agent_stream w model system_prompt query)
       (fun events => ret (strip (last_nonempty_content events))).

(** The generator [stream_debate], run until it is exhausted or raises.
    [limit] is the preview limit [_compact] is called with; the source
    calls it with its default. *)
Definition stream_debate_with (limit : Z) (documents : list string)
    (query model_name : string) (top_k rounds : Z) : Gen Model unit :=
  if env_missing (getenv w "OPENAI_API_KEY") then
    raise (RuntimeError "OPENAI_API_KEY is not set in the environment.")
  else
  let cleaned_docs := clean_documents documents in
  match cleaned_docs with
  | [] => raise (ValueError "At least one non-empty document is required.")
  | _ :: _ =>
  model <- call (init_chat_model w model_name 0) ;;
  vector_store <- call (new_vector_store w EMBEDDING_MODEL) ;;
  let metadatas := build_metadatas (len cleaned_docs) in
  all_splits <- call (create_documents w 1000 200 true cleaned_docs metadatas) ;;
  yield (EvStep (plain_step "setup" "System"
           ("Received " ++ str_of_Z (len cleaned_docs) ++ " documents. Split into "
            ++ str_of_Z (len all_splits) ++ " chunks."))) ;;
  yield (EvStep (plain_step "indexing" "Indexer"
           "Embedding documents for retrieval...")) ;;
  let t_embed_start := perf_counter w 0%nat in
  vector_store <- call (add_documents w vector_store all_splits) ;;
  let t_embed_end := perf_counter w 1%nat in
  retrieved_docs <- call (similarity_search w vector_store query
                            (Z.min top_k (len all_splits))) ;;
  yield (EvStep (plain_step "setup" "System"
           ("Retrieved " ++ str_of_Z (len retrieved_docs)
            ++ " chunks for the query."))) ;;
  let retrieval_lines := map (retrieval_line limit) (enumerate 1 retrieved_docs) in
  yield (EvStep (plain_step "retrieval" "Retriever"
           (match retrieval_lines with
            | [] => "No chunks retrieved."
            | _ :: _ => join nl retrieval_lines
            end))) ;;
  intermediate_results <-
    for_each (enumerate 1 retrieved_docs) []
      (fun '(idx, doc) intermediate_results =>
         response <- _run_agent model query
                       (evidence_prompt query (page_content doc)) ;;
         let intermediate_results := (intermediate_results ++ [response])%list in
         yield (EvStep {| stage := "evidence";
                          speaker := "Doc Agent " ++ str_of_Z idx;
                          message := response;
                          round := Some 0;
                          doc_id := dict_get "doc_id" (metadata doc) |}) ;;
         ret intermediate_results) ;;
  ambiguity_guidance <- _run_agent model query
                          (ambiguity_prompt query (join nl intermediate_results)) ;;
  yield (EvStep {| stage := "ambiguity"; speaker := "Ambiguity Solver";
                   message := ambiguity_guidance; round := Some 0;
                   doc_id := None |}) ;;
  '(intermediate_results, ambiguity_guidance) <-
    for_each (range 1 (rounds + 1)) (intermediate_results, ambiguity_guidance)
      (fun round_idx '(intermediate_results, ambiguity_guidance) =>
         let history_results := intermediate_results in
         intermediate_results <-
           for_each (enumerate 1 retrieved_docs) []
             (fun '(idx, doc) intermediate_results =>
                response <- _run_agent model query
                              (debate_prompt query (page_content doc)
                                 (join nl history_results) ambiguity_guidance) ;;
                let intermediate_results := (intermediate_results ++ [response])%list in
                yield (EvStep {| stage := "debate";
                                 speaker := "Debater " ++ str_of_Z idx;
                                 message := response;
                                 round := Some round_idx;
                                 doc_id := dict_get "doc_id" (metadata doc) |}) ;;
                ret intermediate_results) ;;
         ambiguity_guidance <- _run_agent model query
                                 (ambiguity_prompt query (join nl intermediate_results)) ;;
         yield (EvStep {| stage := "ambiguity"; speaker := "Ambiguity Solver";
                          message := ambiguity_guidance; round := Some round_idx;
                          doc_id := None |}) ;;
         ret (intermediate_results, ambiguity_guidance)) ;;
  final_answer <- _run_agent model query
                    (summarizer_prompt query (join nl intermediate_results)) ;;
  yield (EvStep {| stage := "synthesis"; speaker := "Synthesizer";
                   message := final_answer; round := Some rounds;
                   doc_id := None |}) ;;
  let stats : dict :=
    [("documents", PInt (len cleaned_docs));
     ("chunks", PInt (len all_splits));
     ("retrieved", PInt (len retrieved_docs));
     ("model", PStr model_name);
     ("rounds", PInt rounds);
     ("embedding_seconds",
      PFloat (round_float w (t_embed_end - t_embed_start)%Q 3))] in
  yield (EvDone final_answer stats query)
  end.

(** [stream_debate], with [_compact] at its default limit. *)
Definition stream_debate (documents : list string) (query model_name : string)
    (top_k rounds : Z) : Gen Model unit :=
  stream_debate_with compact_default_limit documents query model_name top_k rounds.

Record DebateResult : Type := {
  result_query : string;
  result_steps : list DebateStep;
  result_final_answer : string;
  result_stats : dict
}.

(** The loop body of [run_debate] on its three variables. *)
Definition collect (acc : list DebateStep * string * dict) (ev : event)
  : list DebateStep * string * dict :=
  let '(steps, final_answer, stats) := acc in
  match ev with
  | EvStep data => ((steps ++ [data])%list, final_answer, stats)
  | EvDone final_answer' stats' _ => (steps, final_answer', stats')
  | _ => (steps, final_answer, stats)
  end.

(** [run_debate]: an exception of the generator escapes the loop. *)
Definition run_debate (documents : list string) (query model_name : string)
    (top_k rounds : Z) : exn + DebateResult :=
  let '(trace, outcome) := stream_debate documents query model_name top_k rounds in
  let '(steps, final_answer, stats) :=
    fold_left collect (yielded trace) ([], EmptyString, []) in
  match outcome with
  | inl e => inl e
  | inr _ => inr {| result_query := query; result_steps := steps;
                    result_final_answer := final_answer; result_stats := stats |}
  end.

End Engine.

(* ================================================================== *)
(** ** app.py: the request model and the websocket handler *)
(* ================================================================== *)

(** The JSON object a client sends, with the types the request model
    declares; an absent optional key is [None]. *)
Record Payload : Type := {
  payload_query : string;
  payload_documents : list string;
  payload_model : option string;
  payload_top_k : option Z;
  payload_rounds : option Z
}.

Record DebateRequest : Type := {
  req_query : string;
  req_documents : list string;
  req_model : option string;
  req_top_k : Z;
  req_rounds : Z
}.

(** The constructor of [DebateRequest] on a payload: the [Field] constraints; the result is the
    request or the fields a [ValidationError] reports. *)
Definition validate_request (p : Payload) : list string + DebateRequest :=
  let top_k := match payload_top_k p with Some k => k | None => 6 end in
  let rounds := match payload_rounds p with Some r => r | None => 2 end in
  let errors :=
    ((if 1 <=? strlen (payload_query p) then [] else ["query"])
     ++ (if 1 <=? len (payload_documents p) then [] else ["documents"])
     ++ (if (1 <=? top_k) && (top_k <=? 20) then [] else ["top_k"])
     ++ (if (1 <=? rounds) && (rounds <=? 4) then [] else ["rounds"]))%list in
  match errors with
  | [] => inr {| req_query := payload_query p;
                 req_documents := payload_documents p;
                 req_model := payload_model p;
                 req_top_k := top_k;
                 req_rounds := rounds |}
  | _ :: _ => inl errors
  end.

(** [request.model or DEFAULT_MODEL] *)
Definition model_or_default (m : option string) : string :=
  match m with
  | Some name => if truthy name then name else DEFAULT_MODEL
  | None => DEFAULT_MODEL
  end.

(** What [asyncio.wait_for(ws.receive_json(), timeout=5)] gives. *)
Inductive incoming : Type :=
| TimedOut
| Received (p : Payload).

(** What the handler does on the socket. *)
Inductive ws_action : Type :=
| WsAccept
| WsSend (e : event)
| WsClose.

Definition is_sentinel (e : event) : bool :=
  match e with EvSentinel => true | _ => false end.

(** The relay loop of the handler on the events the queue hands it, in
    order: it forwards each one and stops at the first sentinel. *)
Fixpoint relay (arrivals : list event) : list event :=
  match arrivals with
  | [] => []
  | e :: rest => if is_sentinel e then [] else e :: relay rest
  end.

Section Bridge.

Context {Model Store : Type} (w : World Model Store).

(** [run_pipeline]: the events the worker thread puts on the queue, in
    order. *)
Definition run_pipeline (request : DebateRequest) (model_name : string)
  : list event :=
  let '(trace, outcome) :=
    stream_debate w (req_documents request) (req_query request) model_name
                  (req_top_k request) (req_rounds request) in
  (yielded trace
   ++ match outcome with
      | inl exc => [EvError ("Pipeline error: " ++ str_exn exc)]
      | inr _ => []
      end
   ++ [EvSentinel])%list.

(** [debate_websocket] with a client that stays connected. *)
Definition debate_websocket (inc : incoming) : list ws_action :=
  WsAccept ::
  match inc with
  | TimedOut =>
      [WsSend (EvError "No payload received. Send JSON after connecting.");
       WsClose]
  | Received payload =>
      match validate_request payload with
      | inl errors => [WsSend (EvValidationError errors)]
      | inr request =>
          let model_name := model_or_default (req_model request) in
          ([WsSend EvReady; WsSend EvReady]
           ++ map WsSend (relay (run_pipeline request model_name))
           ++ [WsClose])%list
      end
  end.

End Bridge.

(** How a call of the HTTP handler ends: it returns the result (the
    response body), raises an [HTTPException], or lets an exception
    through. *)
Inductive http_outcome : Type :=
| Returned (result : DebateResult)
| HTTPException (status_code : Z) (detail : string)
| Propagated (exc : exn).

Section Endpoint.

Context {Model Store : Type} (w : World Model Store).

(** [debate_endpoint] on a request the framework has validated. *)
Definition debate_endpoint (payload : DebateRequest) : http_outcome :=
  let model_name := model_or_default (req_model payload) in
  match run_debate w (req_documents payload) (req_query payload) model_name
                   (req_top_k payload) (req_rounds payload) with
  | inr result => Returned result
  | inl (ValueError msg) => HTTPException 400 (str_exn (ValueError msg))
  | inl (RuntimeError msg) => HTTPException 500 (str_exn (RuntimeError msg))
  | inl exc => Propagated exc
  end.

End Endpoint.

(** The events a handler run sent to the client. *)
Definition sent_events (actions : list ws_action) : list event :=
  flat_map (fun a => match a with WsSend e => [e] | _ => [] end) actions.

(** *** The queue between the worker thread and the relay loop

    The worker thread puts its events one by one; the relay loop takes one
    event at a time when the queue holds one.  The two run in any
    interleaving. *)
Record bridge_state : Type := {
  to_put : list event;     (** what the worker thread has still to put *)
  queue : list event;      (** the queue, oldest first *)
  delivered : list event;  (** what the loop sent to the client *)
  relaying : bool          (** the loop has not left through [break] *)
}.

Inductive bridge_step : bridge_state -> bridge_state -> Prop :=
| step_put e rest q d r :
    bridge_step {| to_put := e :: rest; queue := q; delivered := d; relaying := r |}
                {| to_put := rest; queue := (q ++ [e])%list; delivered := d; relaying := r |}
| step_send e q p d :
    is_sentinel e = false ->
    bridge_step {| to_put := p; queue := e :: q; delivered := d; relaying := true |}
                {| to_put := p; queue := q; delivered := (d ++ [e])%list; relaying := true |}
| step_break e q p d :
    is_sentinel e = true ->
    bridge_step {| to_put := p; queue := e :: q; delivered := d; relaying := true |}
                {| to_put := p; queue := q; delivered := d; relaying := false |}.

Inductive bridge_steps : bridge_state -> bridge_state -> Prop :=
| steps_refl s : bridge_steps s s
| steps_then s1 s2 s3 : bridge_step s1 s2 -> bridge_steps s2 s3 -> bridge_steps s1 s3.

Definition bridge_start (produced : list event) : bridge_state :=
  {| to_put := produced; queue := []; delivered := []; relaying := true |}.

(* ================================================================== *)
(** ** Event predicates *)
(* ================================================================== *)

Definition is_step (e : event) : bool :=
  match e with EvStep _ => true | _ => false end.

(** The events that close a stream. *)
Definition is_terminal (e : event) : bool :=
  match e with
  | EvDone _ _ _ | EvError _ | EvValidationError _ => true
  | _ => false
  end.

Definition is_ready (e : event) : bool :=
  match e with EvReady => true | _ => false end.

(** The payloads of the ["step"] events, in order. *)
Definition step_payloads (evs : list event) : list DebateStep :=
  flat_map (fun e => match e with EvStep d => [d] | _ => [] end) evs.

Definition has_stage (name : string) (s : DebateStep) : bool :=
  String.eqb (stage s) name.

Definition in_round (r : Z) (s : DebateStep) : bool :=
  match round s with Some r' => r' =? r | None => false end.

Definition count_steps (p : DebateStep -> bool) (steps : list DebateStep) : Z :=
  len (filter p steps).

(* ================================================================== *)
(** ** Deterministic stub collaborators *)
(* ================================================================== *)

(** Collaborators that always answer: total functions of their inputs. *)
Record Stubs (Model Store : Type) : Type := {
  stub_getenv : string -> option string;
  stub_model : string -> Z -> Model;
  stub_store : string -> Store;
  stub_split : Z -> Z -> bool -> list string -> list dict -> list Document;
  stub_add : Store -> list Document -> Store;
  stub_search : Store -> string -> Z -> list Document;
  stub_agent : Model -> string -> string -> list AgentEvent;
  stub_clock : nat -> Q;
  stub_round : Q -> Z -> Q
}.

Arguments stub_getenv {Model Store}.
Arguments stub_model {Model Store}.
Arguments stub_store {Model Store}.
Arguments stub_split {Model Store}.
Arguments stub_add {Model Store}.
Arguments stub_search {Model Store}.
Arguments stub_agent {Model Store}.
Arguments stub_clock {Model Store}.
Arguments stub_round {Model Store}.

Definition world_of_stubs {Model Store : Type} (s : Stubs Model Store)
  : World Model Store :=
  {| getenv := stub_getenv s;
     init_chat_model := fun name t => inr (stub_model s name t);
     new_vector_store := fun name => inr (stub_store s name);
     create_documents := fun size overlap idx texts metas =>
                           inr (stub_split s size overlap idx texts metas);
     add_documents := fun st docs => inr (stub_add s st docs);
     similarity_search := fun st q k => inr (stub_search s st q k);
     agent_stream := fun m p q => inr (stub_agent s m p q);
     perf_counter := stub_clock s;
     round_float := stub_round s |}.

(** The state carried from one stage to the next: the answers, one per
    retrieved chunk in retrieval order, and the ambiguity guidance. *)
Definition RoundState : Type := (list string * string)%type.
Definition answers (st : RoundState) : list string := fst st.
Definition guidance (st : RoundState) : string := snd st.

Section StubRun.

Context {Model Store : Type} (s : Stubs Model Store).
Variables (documents : list string) (query model_name : string) (top_k : Z).

(** The values [stream_debate] binds before its loops, with the stubs. *)
Definition stub_chat_model : Model := stub_model s model_name 0.

Definition stub_all_splits : list Document :=
  let cleaned_docs := clean_documents documents in
  stub_split s 1000 200 true cleaned_docs (build_metadatas (len cleaned_docs)).

Definition stub_retrieved : list Document :=
  stub_search s (stub_add s (stub_store s EMBEDDING_MODEL) stub_all_splits)
              query (Z.min top_k (len stub_all_splits)).

(** What [_run_agent] returns for a system prompt. *)
Definition stub_answer (system_prompt : string) : string :=
  strip (last_nonempty_content (stub_agent s stub_chat_model system_prompt query)).

(** The round states as the specification words them (section 4.1, steps
    5 to 7): round 0 answers each retrieved chunk from the chunk alone and
    checks these answers for ambiguity; a debate round answers each chunk
    from the chunk, the previous round's answers and the current guidance,
    replaces the answers by the new ones and checks the new ones. *)
Definition spec_round_zero : RoundState :=
  let a := map (fun doc => stub_answer (evidence_prompt query (page_content doc)))
               stub_retrieved in
  (a, stub_answer (ambiguity_prompt query (join nl a))).

Definition spec_next_round (prev : RoundState) : RoundState :=
  let a := map (fun doc => stub_answer
                             (debate_prompt query (page_content doc)
                                (join nl (answers prev)) (guidance prev)))
               stub_retrieved in
  (a, stub_answer (ambiguity_prompt query (join nl a))).

Fixpoint spec_round_state (r : nat) : RoundState :=
  match r with
  | O => spec_round_zero
  | S r' => spec_next_round (spec_round_state r')
  end.

(** The agent calls of the specification's protocol, in order. *)
Definition spec_evidence_calls : list (Model * string * string) :=
  map (fun doc => (stub_chat_model, evidence_prompt query (page_content doc), query))
      stub_retrieved.

Definition spec_ambiguity_call (st : RoundState) : Model * string * string :=
  (stub_chat_model, ambiguity_prompt query (join nl (answers st)), query).

Definition spec_debate_calls (prev : RoundState) : list (Model * string * string) :=
  map (fun doc => (stub_chat_model,
                   debate_prompt query (page_content doc)
                     (join nl (answers prev)) (guidance prev),
                   query))
      stub_retrieved.

Definition spec_round_calls (r : nat) : list (Model * string * string) :=
  (spec_debate_calls (spec_round_state (r - 1))
   ++ [spec_ambiguity_call (spec_round_state r)])%list.

Definition spec_synthesis_call (rounds : nat) : Model * string * string :=
  (stub_chat_model,
   summarizer_prompt query (join nl (answers (spec_round_state rounds))),
   query).

(** The steps the engine emits, stage by stage. *)
Definition evidence_step (item : Z * Document) : DebateStep :=
  let '(idx, doc) := item in
  {| stage := "evidence"; speaker := "Doc Agent " ++ str_of_Z idx;
     message := stub_answer (evidence_prompt query (page_content doc));
     round := Some 0; doc_id := dict_get "doc_id" (metadata doc) |}.

Definition debate_step (round_idx : Z) (prev : RoundState) (item : Z * Document)
  : DebateStep :=
  let '(idx, doc) := item in
  {| stage := "debate"; speaker := "Debater " ++ str_of_Z idx;
     message := stub_answer (debate_prompt query (page_content doc)
                               (join nl (answers prev)) (guidance prev));
     round := Some round_idx; doc_id := dict_get "doc_id" (metadata doc) |}.

Definition ambiguity_step (round_idx : Z) (st : RoundState) : DebateStep :=
  {| stage := "ambiguity"; speaker := "Ambiguity Solver";
     message := guidance st; round := Some round_idx; doc_id := None |}.

(** The trace of one agent-backed step: the call, then the step. *)
Definition agent_then_step (system_prompt : string) (st : DebateStep)
  : list (effect Model) :=
  [AgentCall stub_chat_model system_prompt query; Yield (EvStep st)].

Definition evidence_trace : list (effect Model) :=
  flat_map (fun item => agent_then_step
                          (evidence_prompt query (page_content (snd item)))
                          (evidence_step item))
           (enumerate 1 stub_retrieved).

Definition round_trace (round_idx : Z) (prev : RoundState) : list (effect Model) :=
  (flat_map (fun item => agent_then_step
                           (debate_prompt query (page_content (snd item))
                              (join nl (answers prev)) (guidance prev))
                           (debate_step round_idx prev item))
            (enumerate 1 stub_retrieved)
   ++ agent_then_step
        (ambiguity_prompt query (join nl (answers (spec_next_round prev))))
        (ambiguity_step round_idx (spec_next_round prev)))%list.

Fixpoint rounds_trace (round_idxs : list Z) (st : RoundState)
  : list (effect Model) :=
  match round_idxs with
  | [] => []
  | r :: rest => (round_trace r st ++ rounds_trace rest (spec_next_round st))%list
  end.

Definition stub_stats (rounds : Z) : dict :=
  [("documents", PInt (len (clean_documents documents)));
   ("chunks", PInt (len stub_all_splits));
   ("retrieved", PInt (len stub_retrieved));
   ("model", PStr model_name);
   ("rounds", PInt rounds);
   ("embedding_seconds",
    PFloat (stub_round s (stub_clock s 1%nat - stub_clock s 0%nat)%Q 3))].

Definition retrieval_message (limit : Z) : string :=
  let retrieval_lines := map (retrieval_line limit) (enumerate 1 stub_retrieved) in
  match retrieval_lines with
  | [] => "No chunks retrieved."
  | _ :: _ => join nl retrieval_lines
  end.

(** The whole trace of a run that passes validation. *)
Definition stub_trace (limit rounds : Z) : list (effect Model) :=
  let final_state := spec_round_state (Z.to_nat rounds) in
  ([Yield (EvStep (plain_step "setup" "System"
             ("Received " ++ str_of_Z (len (clean_documents documents))
              ++ " documents. Split into " ++ str_of_Z (len stub_all_splits)
              ++ " chunks.")));
    Yield (EvStep (plain_step "indexing" "Indexer"
             "Embedding documents for retrieval..."));
    Yield (EvStep (plain_step "setup" "System"
             ("Retrieved " ++ str_of_Z (len stub_retrieved)
              ++ " chunks for the query.")));
    Yield (EvStep (plain_step "retrieval" "Retriever" (retrieval_message limit)))]
   ++ evidence_trace
   ++ agent_then_step (ambiguity_prompt query (join nl (answers spec_round_zero)))
        (ambiguity_step 0 spec_round_zero)
   ++ rounds_trace (range 1 (rounds + 1)) spec_round_zero
   ++ agent_then_step (summarizer_prompt query (join nl (answers final_state)))
        {| stage := "synthesis"; speaker := "Synthesizer";
           message := stub_answer (summarizer_prompt query
                                     (join nl (answers final_state)));
           round := Some rounds; doc_id := None |}
   ++ [Yield (EvDone (stub_answer (summarizer_prompt query
                                     (join nl (answers final_state))))
                     (stub_stats rounds) query)])%list.

(** The steps of a run that passes validation, and its agent calls. *)
Definition round_steps (r : nat) : list DebateStep :=
  (map (debate_step (Z.of_nat r) (spec_round_state (r - 1)))
       (enumerate 1 stub_retrieved)
   ++ [ambiguity_step (Z.of_nat r) (spec_round_state r)])%list.

Definition synthesis_step (rounds : Z) : DebateStep :=
  let final_state := spec_round_state (Z.to_nat rounds) in
  {| stage := "synthesis"; speaker := "Synthesizer";
     message := stub_answer (summarizer_prompt query
                               (join nl (answers final_state)));
     round := Some rounds; doc_id := None |}.

Definition stub_steps (limit rounds : Z) : list DebateStep :=
  ([plain_step "setup" "System"
      ("Received " ++ str_of_Z (len (clean_documents documents))
       ++ " documents. Split into " ++ str_of_Z (len stub_all_splits)
       ++ " chunks.");
    plain_step "indexing" "Indexer" "Embedding documents for retrieval...";
    plain_step "setup" "System"
      ("Retrieved " ++ str_of_Z (len stub_retrieved) ++ " chunks for the query.");
    plain_step "retrieval" "Retriever" (retrieval_message limit)]
   ++ map evidence_step (enumerate 1 stub_retrieved)
   ++ [ambiguity_step 0 spec_round_zero]
   ++ flat_map round_steps (seq 1 (Z.to_nat rounds))
   ++ [synthesis_step rounds])%list.

Definition stub_calls (rounds : Z) : list (Model * string * string) :=
  (spec_evidence_calls
   ++ [spec_ambiguity_call spec_round_zero]
   ++ flat_map spec_round_calls (seq 1 (Z.to_nat rounds))
   ++ [spec_synthesis_call (Z.to_nat rounds)])%list.

End StubRun.

(* ================================================================== *)
(** ** A concrete set of stubs, for running the model *)
(* ================================================================== *)

Module Demo.

(** The agent stub streams the user message, then one reply that names the
    length of the system prompt it was given. *)
Definition demo_agent (model system_prompt query : string) : list AgentEvent :=
  [ {| first_message := query; later_messages := [] |};
    {| first_message := query;
       later_messages := [" Answer: " ++ str_of_Z (strlen system_prompt) ++ ". "] |} ].

(** One chunk per document; the store keeps the chunks in order and the
    search returns the first [k]. *)
Definition demo_stubs (key : option string) : Stubs string (list Document) :=
  {| stub_getenv := fun name =>
                      if String.eqb name "OPENAI_API_KEY" then key else None;
     stub_model := fun name _ => name;
     stub_store := fun _ => [];
     stub_split := fun _ _ _ texts metas =>
                     map (fun tm => {| page_content := fst tm; metadata := snd tm |})
                         (combine texts metas);
     stub_add := fun st docs => (st ++ docs)%list;
     stub_search := fun st _ k => firstn (Z.to_nat k) st;
     stub_agent := demo_agent;
     stub_clock := fun n => inject_Z (Z.of_nat n);
     stub_round := fun x _ => x |}.

Definition demo_world : World string (list Document) :=
  world_of_stubs (demo_stubs (Some "sk-test")).

(** The same services without the credential. *)
Definition no_key_world : World string (list Document) :=
  world_of_stubs (demo_stubs None).

(** The same services with an agent runtime that fails on every call. *)
Definition failing_agent_world : World string (list Document) :=
  {| getenv := getenv demo_world;
     init_chat_model := init_chat_model demo_world;
     new_vector_store := new_vector_store demo_world;
     create_documents := create_documents demo_world;
     add_documents := add_documents demo_world;
     similarity_search := similarity_search demo_world;
     agent_stream := fun _ _ _ => inl (OtherException "APIError" "service unavailable");
     perf_counter := perf_counter demo_world;
     round_float := round_float demo_world |}.

Definition demo_documents : list string :=
  ["Paris is the capital of France."; "  "; "Lyon is a city in France."].

(** The documents of the specification's concrete scenario. *)
Definition two_documents : list string :=
  ["Paris is the capital of France."; "Lyon is a city in France."].

Definition demo_query : string := "What is the capital of France?".

Definition demo_payload : Payload :=
  {| payload_query := demo_query;
     payload_documents := demo_documents;
     payload_model := None;
     payload_top_k := Some 2;
     payload_rounds := Some 1 |}.

Definition demo_request : DebateRequest :=
  {| req_query := demo_query;
     req_documents := demo_documents;
     req_model := None;
     req_top_k := 2;
     req_rounds := 1 |}.

(** A text whose whitespace-collapsed form has 201 characters. *)
Definition long_text : string :=
  String.concat " " (repeat "abcdefgh" 22) ++ "   tail".

End Demo.

(* ================================================================== *)
(** ** Shapes of traces *)
(* ================================================================== *)

(** A computation that yields nothing but ["step"] events. *)
Definition only_steps {Model A : Type} (m : Gen Model A) : Prop :=
  forallb is_step (yielded (fst m)) = true.

(** A generator run in the shape of the protocol: when it ends normally its
    events are ["step"] events closed by one ["done"] event for [query];
    when it raises, it yielded ["step"] events only. *)
Definition closes_with_done {Model : Type} (query : string) (m : Gen Model unit)
  : Prop :=
  match snd m with
  | inl _ => forallb is_step (yielded (fst m)) = true
  | inr _ => exists front final_answer stats,
               yielded (fst m) = (front ++ [EvDone final_answer stats query])%list
               /\ forallb is_step front = true
  end.

(** The retrieval summary, the one step the preview limit shows in. *)
Definition is_retrieval_yield {Model : Type} (x : effect Model) : bool :=
  match x with
  | Yield (EvStep st) => has_stage "retrieval" st
  | _ => false
  end.

(** A trace without its retrieval summary. *)
Definition hide_retrieval {Model : Type} (t : list (effect Model))
  : list (effect Model) :=
  filter (fun x => negb (is_retrieval_yield x)) t.

(** Two runs that differ at most in their retrieval summary. *)
Definition same_but_retrieval {Model A : Type} (m1 m2 : Gen Model A) : Prop :=
  hide_retrieval (fst m1) = hide_retrieval (fst m2) /\ snd m1 = snd m2.

(** The steps a debate round contributes. *)
Definition of_debate_round (r : Z) (st : DebateStep) : bool :=
  in_round r st && (has_stage "debate" st || has_stage "ambiguity" st).

(** The steps that carry the answers of round [r]: the evidence steps for
    round 0, the debate steps for a later round. *)
Definition carries_answer (r : Z) (st : DebateStep) : bool :=
  in_round r st && (has_stage "evidence" st || has_stage "debate" st).

(** A list of events without the sentinel. *)
Definition no_sentinel (l : list event) : Prop :=
  forallb (fun e => negb (is_sentinel e)) l = true.

(** What holds of the queue at every moment of every schedule. *)
Definition bridge_invariant (produced : list event) (st : bridge_state) : Prop :=
  no_sentinel (delivered st)
  /\ produced
     = (delivered st
        ++ (if relaying st then [] else [EvSentinel])
        ++ queue st ++ to_put st)%list.

(* ================================================================== *)
(** ** Further predicates on text, traces and the queue *)
(* ================================================================== *)

(** Every character of a string satisfies [p]. *)
Fixpoint all_chars (p : ascii -> bool) (s : string) : bool :=
  match s with
  | EmptyString => true
  | String c s' => p c && all_chars p s'
  end.

(** A character that is not whitespace, or the plain space. *)
Definition plain_char (c : ascii) : bool :=
  negb (isspace c) || Ascii.eqb c " ".

(** A string that neither starts nor ends with whitespace. *)
Definition trimmed (s : string) : Prop := lstrip s = s /\ rstrip s = s.

(** Every effect of a computation satisfies [P]. *)
Definition trace_all {Model A : Type} (P : effect Model -> Prop)
    (m : Gen Model A) : Prop :=
  Forall P (fst m).

(** A generator run whose events, when it ends normally, end with events
    that satisfy [P]. *)
Definition closes_with {Model : Type} (P : list event -> Prop)
    (m : Gen Model unit) : Prop :=
  match snd m with
  | inl _ => True
  | inr _ => exists front tail,
               yielded (fst m) = (front ++ tail)%list /\ P tail
  end.

(** An effect that is not a failed agent call. *)
Definition call_succeeds {Model Store : Type} (w : World Model Store)
    (x : effect Model) : Prop :=
  match x with
  | Yield _ => True
  | AgentCall m p q => exists events, agent_stream w m p q = inr events
  end.

(** A computation in which a failed agent call is the last thing done and
    its exception the outcome. *)
Definition stops_at_failed_call {Model Store A : Type} (w : World Model Store)
    (m : Gen Model A) : Prop :=
  match snd m with
  | inr _ => Forall (call_succeeds w) (fst m)
  | inl e =>
      Forall (call_succeeds w) (fst m)
      \/ exists t model p q,
           fst m = (t ++ [AgentCall model p q])%list
           /\ Forall (call_succeeds w) t
           /\ agent_stream w model p q = inl e
  end.

(** Schedules of the bridge, with their number of steps. *)
Inductive bridge_steps_in : nat -> bridge_state -> bridge_state -> Prop :=
| steps_in_zero s : bridge_steps_in 0 s s
| steps_in_succ n s1 s2 s3 :
    bridge_step s1 s2 -> bridge_steps_in n s2 s3 -> bridge_steps_in (S n) s1 s3.

(** What is left to do: two steps for an event still to put, one for an
    event in the queue. *)
Definition bridge_measure (st : bridge_state) : nat :=
  (2 * List.length (to_put st) + List.length (queue st))%nat.

(** A string whose whitespace is single plain spaces between other
    characters; [after_space] tells whether a space (or the start) comes
    before. *)
Fixpoint wellspaced (after_space : bool) (s : string) : bool :=
  match s with
  | EmptyString => negb after_space
  | String c s' =>
      if isspace c
      then Ascii.eqb c " " && negb after_space && wellspaced true s'
      else wellspaced false s'
  end.

(** A whitespace-collapsed string: empty, or words separated by single
    plain spaces. *)
Definition collapsed (s : string) : Prop :=
  s = EmptyString \/ wellspaced true s = true.

(* ================================================================== *)
(** * Properties *)
(* ================================================================== *)

(** ** Text *)

Example split_demo : split "  a  bc d " = ["a"; "bc"; "d"].
Proof. reflexivity. Qed.

Example str_of_Z_demo :
  str_of_Z 120 = "120" /\ str_of_Z 0 = "0" /\ str_of_Z (-7) = "-7".
Proof. repeat split; reflexivity. Qed.

Example compact_demo :
  _compact " ab   cd  efgh " 9 = "ab cd..." /\ _compact "ab  cd" 9 = "ab cd".
Proof. split; reflexivity. Qed.

(** The specification's concrete scenario with the demo stubs: two evidence
    steps, then per round two debate steps and one ambiguity step. *)
Example scenario_demo :
  map (fun st => (stage st, round st))
      (step_payloads
         (yielded (fst (stream_debate Demo.demo_world Demo.two_documents
                          Demo.demo_query DEFAULT_MODEL 2 1))))
  = [("setup", None); ("indexing", None); ("setup", None); ("retrieval", None);
     ("evidence", Some 0); ("evidence", Some 0); ("ambiguity", Some 0);
     ("debate", Some 1); ("debate", Some 1); ("ambiguity", Some 1);
     ("synthesis", Some 1)].
Proof. vm_compute. reflexivity. Qed.

Lemma string_length_app (a b : string) :
  String.length (a ++ b) = (String.length a + String.length b)%nat.
Proof.
  induction a as [|c a IH]; simpl; [reflexivity|].
  now rewrite IH.
Qed.

Lemma substring_from_start_length (n : nat) (s : string) :
  (String.length (substring 0 n s) <= n)%nat.
Proof.
  revert s; induction n as [|n IH]; intros [|c s]; simpl; try lia.
  specialize (IH s); lia.
Qed.

Lemma rstrip_length (s : string) :
  (String.length (rstrip s) <= String.length s)%nat.
Proof.
  induction s as [|c s IH]; simpl; [lia|].
  destruct (rstrip s) as [|c' r]; simpl in *.
  - destruct (isspace c); simpl; lia.
  - lia.
Qed.

Lemma slice_to_length (s : string) (stop : Z) :
  0 <= stop -> strlen (slice_to s stop) <= stop.
Proof.
  intros Hstop. unfold slice_to, strlen.
  destruct (Z.ltb_spec stop 0) as [Hneg|_]; [lia|].
  pose proof (substring_from_start_length
                (Z.to_nat (Z.min stop (Z.of_nat (String.length s)))) s).
  lia.
Qed.

(** C5. Truncation law of the retrieval summary: a chunk whose
    whitespace-collapsed form has more than 200 characters is previewed by
    at most 200 characters ending in the ellipsis marker; a chunk whose
    collapsed form has at most 200 characters is previewed by that form
    itself. *)
Theorem compact_truncation_law (text : string) :
  let cleaned := join " " (split text) in
  (compact_default_limit < strlen cleaned ->
   endswith (_compact text compact_default_limit) "..."
   /\ strlen (_compact text compact_default_limit) <= 200)
  /\ (strlen cleaned <= compact_default_limit ->
      _compact text compact_default_limit = cleaned).
Proof.
  intros cleaned. unfold _compact, compact_default_limit. fold cleaned.
  split; intros Hlen.
  - destruct (Z.leb_spec (strlen cleaned) 200) as [Hle|Hgt]; [lia|].
    split.
    + exists (rstrip (slice_to cleaned (200 - 3))). reflexivity.
    + unfold strlen. rewrite string_length_app.
      change (String.length "...") with 3%nat.
      pose proof (rstrip_length (slice_to cleaned (200 - 3))).
      pose proof (slice_to_length cleaned (200 - 3) ltac:(lia)).
      unfold strlen in *. lia.
  - destruct (Z.leb_spec (strlen cleaned) 200) as [Hle|Hgt]; [reflexivity|lia].
Qed.

Lemma compact_truncation_law_witness :
  (endswith (_compact Demo.long_text compact_default_limit) "..."
   /\ strlen (_compact Demo.long_text compact_default_limit) <= 200)
  /\ _compact "ab   cd" compact_default_limit = join " " (split "ab   cd").
Proof.
  split.
  - apply (proj1 (compact_truncation_law Demo.long_text)). vm_compute. reflexivity.
  - apply (proj2 (compact_truncation_law "ab   cd")). vm_compute. discriminate.
Defined.

(** ** The generator monad *)

Section GenLemmas.

Context {Model : Type}.

Lemma bind_run {A B : Type} (m : Gen Model A) (k : A -> Gen Model B) t1 a t2 r :
  m = (t1, inr a) -> k a = (t2, r) -> bind m k = ((t1 ++ t2)%list, r).
Proof. intros -> Hk. unfold bind. now rewrite Hk. Qed.

Lemma bind_raised {A B : Type} (m : Gen Model A) (k : A -> Gen Model B) t e :
  m = (t, inl e) -> bind m k = (t, inl e).
Proof. now intros ->. Qed.

Lemma yielded_app (t1 t2 : list (effect Model)) :
  yielded (t1 ++ t2) = (yielded t1 ++ yielded t2)%list.
Proof. apply flat_map_app. Qed.

Lemma agent_calls_app (t1 t2 : list (effect Model)) :
  agent_calls (t1 ++ t2) = (agent_calls t1 ++ agent_calls t2)%list.
Proof. apply flat_map_app. Qed.

(** The trace and the outcome of a [bind], by cases on its first part. *)
Lemma bind_cases {A B : Type} (m : Gen Model A) (k : A -> Gen Model B) :
  (exists e, snd m = inl e /\ bind m k = (fst m, inl e))
  \/ (exists a, snd m = inr a
                /\ bind m k = ((fst m ++ fst (k a))%list, snd (k a))).
Proof.
  destruct m as [t [e|a]]; simpl.
  - left. now exists e.
  - right. exists a. split; [reflexivity|]. now destruct (k a).
Qed.

Lemma only_steps_ret {A : Type} (a : A) : only_steps (@ret Model A a).
Proof. reflexivity. Qed.

Lemma only_steps_call {A : Type} (r : exn + A) : only_steps (@call Model A r).
Proof. reflexivity. Qed.

Lemma only_steps_yield_step (st : DebateStep) :
  only_steps (@yield Model (EvStep st)).
Proof. reflexivity. Qed.

Lemma only_steps_bind {A B : Type} (m : Gen Model A) (k : A -> Gen Model B) :
  only_steps m -> (forall a, only_steps (k a)) -> only_steps (bind m k).
Proof.
  unfold only_steps. intros Hm Hk.
  destruct (bind_cases m k) as [(e & _ & ->)|(a & _ & ->)]; simpl.
  - exact Hm.
  - rewrite yielded_app, forallb_app, Hm. apply Hk.
Qed.

Lemma only_steps_for_each {A S : Type} (xs : list A)
    (body : A -> S -> Gen Model S) :
  (forall x s, only_steps (body x s)) ->
  forall s, only_steps (for_each xs s body).
Proof.
  intros Hbody. induction xs as [|x xs IH]; intros s; simpl.
  - apply only_steps_ret.
  - apply only_steps_bind; [apply Hbody | intros s'; apply IH].
Qed.

Lemma closes_bind {A : Type} (query : string) (m : Gen Model A)
    (k : A -> Gen Model unit) :
  only_steps m -> (forall a, closes_with_done query (k a)) ->
  closes_with_done query (bind m k).
Proof.
  unfold only_steps, closes_with_done. intros Hm Hk.
  destruct (bind_cases m k) as [(e & _ & ->)|(a & _ & ->)]; simpl.
  - exact Hm.
  - specialize (Hk a). destruct (snd (k a)) as [e|u].
    + now rewrite yielded_app, forallb_app, Hm.
    + destruct Hk as (front & fa & st & Hy & Hfront).
      exists (yielded (fst m) ++ front)%list, fa, st.
      rewrite yielded_app, Hy, app_assoc. split; [reflexivity|].
      now rewrite forallb_app, Hm.
Qed.

Lemma closes_raise (query : string) (e : exn) :
  closes_with_done query (@raise Model unit e).
Proof. reflexivity. Qed.

Lemma closes_yield_done (query final_answer : string) (stats : dict) :
  closes_with_done query (@yield Model (EvDone final_answer stats query)).
Proof. exists [], final_answer, stats. split; reflexivity. Qed.

End GenLemmas.

(** ** The engine in any world *)

Section EngineLemmas.

Context {Model Store : Type} (w : World Model Store).

Lemma only_steps_run_agent (model : Model) (query system_prompt : string) :
  only_steps (_run_agent w model query system_prompt).
Proof.
  unfold _run_agent. apply only_steps_bind.
  - reflexivity.
  - intros events. apply only_steps_ret.
Qed.

Ltac split_pairs :=
  repeat match goal with x : (_ * _)%type |- _ => destruct x end.

Ltac only_steps_tac :=
  repeat first
    [ apply only_steps_ret
    | apply only_steps_call
    | apply only_steps_yield_step
    | apply only_steps_run_agent
    | apply only_steps_for_each; intros; split_pairs; cbv beta iota zeta
    | apply only_steps_bind; [|intros; split_pairs; cbv beta iota zeta] ].

(** Every run of the generator has the protocol's shape. *)
Lemma stream_debate_with_closes (limit : Z) (documents : list string)
    (query model_name : string) (top_k rounds : Z) :
  closes_with_done query
    (stream_debate_with w limit documents query model_name top_k rounds).
Proof.
  unfold stream_debate_with.
  destruct (env_missing _); [apply closes_raise|].
  cbv zeta. destruct (clean_documents documents) as [|d ds]; [apply closes_raise|].
  repeat (apply closes_bind;
          [solve [only_steps_tac] | intros; split_pairs; cbv beta iota zeta]).
  apply closes_yield_done.
Qed.

End EngineLemmas.

(** ** The batched adapter *)

Lemma collect_steps (front : list event) (acc : list DebateStep)
    (final_answer : string) (stats : dict) :
  forallb is_step front = true ->
  fold_left collect front (acc, final_answer, stats)
  = ((acc ++ step_payloads front)%list, final_answer, stats).
Proof.
  revert acc. induction front as [|e front IH]; intros acc Hall; simpl.
  - now rewrite app_nil_r.
  - simpl in Hall. apply andb_prop in Hall as [He Hfront].
    destruct e; try discriminate He. simpl.
    rewrite IH by assumption. now rewrite <- app_assoc.
Qed.

Lemma step_payloads_app (a b : list event) :
  step_payloads (a ++ b) = (step_payloads a ++ step_payloads b)%list.
Proof. apply flat_map_app. Qed.

(** C2. The batched form against the streaming form, in any world: when
    the generator ends normally, [run_debate] returns a result whose steps
    are the payloads of the generator's step events, in order, and whose
    final answer, stats and query are those of the done event that closes
    the generator's events; when the generator raises, [run_debate] raises
    the same exception. *)
Theorem run_debate_matches_stream {Model Store : Type} (w : World Model Store)
    (documents : list string) (query model_name : string) (top_k rounds : Z) :
  let run := stream_debate w documents query model_name top_k rounds in
  match snd run with
  | inr _ =>
      exists result front,
        run_debate w documents query model_name top_k rounds = inr result
        /\ result_steps result = step_payloads (yielded (fst run))
        /\ yielded (fst run)
           = (front ++ [EvDone (result_final_answer result) (result_stats result)
                               (result_query result)])%list
        /\ forallb is_step front = true
  | inl e => run_debate w documents query model_name top_k rounds = inl e
  end.
Proof.
  intros run.
  pose proof (stream_debate_with_closes w compact_default_limit documents query
                model_name top_k rounds) as Hshape.
  unfold closes_with_done in Hshape.
  unfold run_debate, run, stream_debate. clear run.
  destruct (stream_debate_with w compact_default_limit documents query
              model_name top_k rounds) as [trace [e|u]]; simpl in *.
  - now destruct (fold_left collect (yielded trace) ([], EmptyString, [])) as [[? ?] ?].
  - destruct Hshape as (front & fa & st & Hy & Hfront).
    rewrite Hy, fold_left_app, (collect_steps front [] _ _ Hfront). simpl.
    eexists; exists front. split; [reflexivity|]. simpl.
    rewrite step_payloads_app. simpl. rewrite app_nil_r. auto.
Qed.

(** ** Validation *)

(** C4, as the code has it: without the credential the generator raises the
    configuration error ([RuntimeError]) whatever the documents are; with
    the credential and no non-empty document left after stripping it raises
    the input error ([ValueError]); in both cases the trace is empty: no
    event was yielded and no agent was called. *)
Theorem validation_failures {Model Store : Type} (w : World Model Store)
    (documents : list string) (query model_name : string) (top_k rounds : Z) :
  (env_missing (getenv w "OPENAI_API_KEY") = true ->
   stream_debate w documents query model_name top_k rounds
   = ([], inl (RuntimeError "OPENAI_API_KEY is not set in the environment.")))
  /\ (env_missing (getenv w "OPENAI_API_KEY") = false ->
      clean_documents documents = [] ->
      stream_debate w documents query model_name top_k rounds
      = ([], inl (ValueError "At least one non-empty document is required."))).
Proof.
  unfold stream_debate, stream_debate_with. split.
  - intros ->. reflexivity.
  - intros -> ->. reflexivity.
Qed.

Lemma validation_failures_witness :
  stream_debate Demo.no_key_world Demo.demo_documents "q" DEFAULT_MODEL 6 2
  = ([], inl (RuntimeError "OPENAI_API_KEY is not set in the environment."))
  /\ stream_debate Demo.demo_world [""; "  "] "q" DEFAULT_MODEL 6 2
     = ([], inl (ValueError "At least one non-empty document is required.")).
Proof.
  split.
  - apply (proj1 (validation_failures Demo.no_key_world Demo.demo_documents
                    "q" DEFAULT_MODEL 6 2)).
    reflexivity.
  - apply (proj2 (validation_failures Demo.demo_world [""; "  "]
                    "q" DEFAULT_MODEL 6 2)); reflexivity.
Defined.

(** C4 as stated fails: with no credential and no non-empty document, zero
    non-empty documents remain after stripping, yet the generator does not
    raise the input error; it raises the configuration error. *)
Lemma input_error_needs_credential :
  clean_documents [""] = []
  /\ (forall msg,
        snd (stream_debate Demo.no_key_world [""] "q" DEFAULT_MODEL 6 2)
        <> inl (ValueError msg))
  /\ stream_debate Demo.no_key_world [""] "q" DEFAULT_MODEL 6 2
     = ([], inl (RuntimeError "OPENAI_API_KEY is not set in the environment.")).
Proof.
  split; [reflexivity|]. split; [|reflexivity].
  intros msg H. vm_compute in H. discriminate H.
Qed.

(** ** Runs with stubs *)

Lemma for_each_append {Model A : Type} (xs : list A)
    (body : A -> list string -> Gen Model (list string))
    (tr : A -> list (effect Model)) (f : A -> string) :
  (forall x acc, body x acc = (tr x, inr (acc ++ [f x])%list)) ->
  forall acc, for_each xs acc body = (flat_map tr xs, inr (acc ++ map f xs)%list).
Proof.
  intros Hbody. induction xs as [|x xs IH]; intros acc; simpl.
  - unfold ret. now rewrite app_nil_r.
  - erewrite bind_run; [|apply Hbody|apply IH].
    now rewrite <- app_assoc.
Qed.

Lemma map_enumerate_snd {A B : Type} (f : A -> B) (start : Z) (l : list A) :
  map (fun item => f (snd item)) (enumerate start l) = map f l.
Proof.
  revert start. induction l as [|x l IH]; intros start; simpl; [reflexivity|].
  now rewrite IH.
Qed.

Lemma enumerate_length {A : Type} (start : Z) (l : list A) :
  List.length (enumerate start l) = List.length l.
Proof.
  revert start. induction l as [|x l IH]; intros start; simpl; [reflexivity|].
  now rewrite IH.
Qed.

Lemma range_succ (lo : Z) (n : nat) :
  range lo (lo + Z.of_nat (S n)) = lo :: range (lo + 1) (lo + 1 + Z.of_nat n).
Proof.
  unfold range.
  replace (Z.to_nat (lo + Z.of_nat (S n) - lo)) with (S n) by lia.
  replace (Z.to_nat (lo + 1 + Z.of_nat n - (lo + 1))) with n by lia.
  simpl. f_equal; [lia|].
  rewrite <- seq_shift, map_map. apply map_ext. intros i. lia.
Qed.

Lemma range_empty (lo hi : Z) : hi <= lo -> range lo hi = [].
Proof.
  intros H. unfold range. now replace (Z.to_nat (hi - lo)) with 0%nat by lia.
Qed.

Section StubLemmas.

Context {Model Store : Type} (s : Stubs Model Store).
Variables (documents : list string) (query model_name : string) (top_k : Z).

Local Abbreviation model := (stub_chat_model s model_name).
Local Abbreviation retrieved := (stub_retrieved s documents query top_k).
Local Abbreviation answer := (stub_answer s query model_name).
Local Abbreviation next_round := (spec_next_round s documents query model_name top_k).
Local Abbreviation round_state := (spec_round_state s documents query model_name top_k).
Local Abbreviation round_zero := (spec_round_zero s documents query model_name top_k).

Lemma run_agent_stub (system_prompt : string) :
  _run_agent (world_of_stubs s) model query system_prompt
  = ([AgentCall model system_prompt query], inr (answer system_prompt)).
Proof. reflexivity. Qed.

Lemma for_each_rounds (round_idxs : list Z)
    (body : Z -> RoundState -> Gen Model RoundState) :
  (forall r st,
     body r st = (round_trace s documents query model_name top_k r st,
                  inr (next_round st))) ->
  forall st,
    for_each round_idxs st body
    = (rounds_trace s documents query model_name top_k round_idxs st,
       inr (fold_left (fun st' _ => next_round st') round_idxs st)).
Proof.
  intros Hbody. induction round_idxs as [|r rs IH]; intros st; simpl.
  - reflexivity.
  - erewrite bind_run; [reflexivity|apply Hbody|apply IH].
Qed.

Lemma fold_rounds_state (round_idxs : list Z) (k : nat) :
  fold_left (fun st' (_ : Z) => next_round st') round_idxs (round_state k)
  = round_state (k + List.length round_idxs).
Proof.
  revert k. induction round_idxs as [|r rs IH]; intros k; simpl.
  - now rewrite Nat.add_0_r.
  - change (next_round (round_state k)) with (round_state (S k)).
    rewrite IH. f_equal. lia.
Qed.

Lemma range_length (lo hi : Z) : List.length (range lo hi) = Z.to_nat (hi - lo).
Proof. unfold range. now rewrite length_map, length_seq. Qed.

(** With stubs, a run that passes validation ends normally and leaves the
    trace [stub_trace]. *)
Lemma stream_debate_with_stub_run (limit rounds : Z) :
  env_missing (stub_getenv s "OPENAI_API_KEY") = false ->
  clean_documents documents <> [] ->
  stream_debate_with (world_of_stubs s) limit documents query model_name
                     top_k rounds
  = (stub_trace s documents query model_name top_k limit rounds, inr tt).
Proof.
  intros Henv Hdocs. unfold stream_debate_with.
  change (getenv (world_of_stubs s)) with (stub_getenv s). rewrite Henv.
  cbv zeta.
  destruct (clean_documents documents) as [|d ds] eqn:Hclean; [congruence|].
  rewrite <- Hclean.
  eapply eq_trans.
  { eapply bind_run; [reflexivity|cbv beta].
    eapply bind_run; [reflexivity|cbv beta].
    eapply bind_run; [reflexivity|cbv beta].
    eapply bind_run; [reflexivity|cbv beta].
    eapply bind_run; [reflexivity|cbv beta].
    eapply bind_run; [reflexivity|cbv beta].
    eapply bind_run; [reflexivity|cbv beta].
    eapply bind_run; [reflexivity|cbv beta].
    eapply bind_run; [reflexivity|cbv beta].
    eapply bind_run.
    { apply (for_each_append _ _
               (fun item => agent_then_step s query model_name
                              (evidence_prompt query (page_content (snd item)))
                              (evidence_step s query model_name item))
               (fun item => answer (evidence_prompt query (page_content (snd item))))).
      intros [idx doc] acc. reflexivity. }
    cbv beta.
    eapply bind_run; [apply run_agent_stub|cbv beta].
    eapply bind_run; [reflexivity|cbv beta].
    eapply bind_run.
    { apply for_each_rounds. intros r [a g]. cbv beta iota zeta.
      eapply eq_trans.
      { eapply bind_run.
        { apply (for_each_append _ _
                   (fun item => agent_then_step s query model_name
                                  (debate_prompt query (page_content (snd item))
                                     (join nl a) g)
                                  (debate_step s query model_name r (a, g) item))
                   (fun item => answer (debate_prompt query (page_content (snd item))
                                          (join nl a) g))).
          intros [idx doc] acc. reflexivity. }
        cbv beta.
        eapply bind_run; [apply run_agent_stub|cbv beta].
        eapply bind_run; reflexivity. }
      rewrite (map_enumerate_snd
                 (fun doc => answer (debate_prompt query (page_content doc)
                                       (join nl a) g))).
      reflexivity. }
    match goal with
    | |- context [fold_left ?f ?l ?st] =>
        rewrite (surjective_pairing (fold_left f l st))
    end.
    cbv beta iota.
    eapply bind_run; [apply run_agent_stub|cbv beta].
    eapply bind_run; reflexivity. }
  rewrite !(map_enumerate_snd
              (fun doc => answer (evidence_prompt query (page_content doc)))).
  match goal with
  | |- context [fold_left ?f ?l ?st] => change st with (round_state 0)
  end.
  rewrite (fold_rounds_state _ 0), range_length. simpl Nat.add.
  replace (rounds + 1 - 1) with rounds by lia.
  reflexivity.
Qed.

Lemma yielded_agent_steps {A : Type} (prompt : A -> string)
    (st : A -> DebateStep) (xs : list A) :
  yielded (flat_map (fun x => agent_then_step s query model_name (prompt x) (st x)) xs)
  = map (fun x => EvStep (st x)) xs.
Proof. induction xs as [|x xs IH]; simpl; [reflexivity|]. now rewrite IH. Qed.

Lemma calls_agent_steps {A : Type} (prompt : A -> string)
    (st : A -> DebateStep) (xs : list A) :
  agent_calls (flat_map (fun x => agent_then_step s query model_name (prompt x) (st x)) xs)
  = map (fun x => (model, prompt x, query)) xs.
Proof. induction xs as [|x xs IH]; simpl; [reflexivity|]. now rewrite IH. Qed.

(** The rounds loop, round by round. *)
Lemma rounds_trace_range (n k : nat) :
  rounds_trace s documents query model_name top_k
    (range (Z.of_nat k + 1) (Z.of_nat k + 1 + Z.of_nat n)) (round_state k)
  = flat_map (fun i => round_trace s documents query model_name top_k
                         (Z.of_nat i) (round_state (i - 1)))
             (seq (S k) n).
Proof.
  revert k. induction n as [|n IH]; intros k.
  - rewrite range_empty by lia. reflexivity.
  - rewrite range_succ. cbn [rounds_trace seq flat_map].
    specialize (IH (S k)).
    replace (Z.of_nat (S k) + 1) with (Z.of_nat k + 1 + 1) in IH by lia.
    f_equal.
    + f_equal; [lia | f_equal; lia].
    + exact IH.
Qed.

Lemma rounds_trace_all (rounds : Z) :
  rounds_trace s documents query model_name top_k (range 1 (rounds + 1)) round_zero
  = flat_map (fun i => round_trace s documents query model_name top_k
                         (Z.of_nat i) (round_state (i - 1)))
             (seq 1 (Z.to_nat rounds)).
Proof.
  destruct (Z.le_gt_cases rounds 0) as [Hneg|Hpos].
  - rewrite range_empty by lia.
    now replace (Z.to_nat rounds) with 0%nat by lia.
  - pose proof (rounds_trace_range (Z.to_nat rounds) 0) as H.
    replace (Z.of_nat 0 + 1) with 1 in H by reflexivity.
    replace (1 + Z.of_nat (Z.to_nat rounds)) with (rounds + 1) in H by lia.
    exact H.
Qed.

Lemma yielded_round_trace (i : nat) :
  (0 < i)%nat ->
  yielded (round_trace s documents query model_name top_k
             (Z.of_nat i) (round_state (i - 1)))
  = map EvStep (round_steps s documents query model_name top_k i).
Proof.
  intros Hi. unfold round_trace, round_steps.
  rewrite yielded_app, yielded_agent_steps, map_app, map_map.
  change (next_round (round_state (i - 1))) with (round_state (S (i - 1))).
  replace (S (i - 1)) with i by lia. reflexivity.
Qed.

Lemma calls_round_trace (i : nat) :
  (0 < i)%nat ->
  agent_calls (round_trace s documents query model_name top_k
                 (Z.of_nat i) (round_state (i - 1)))
  = spec_round_calls s documents query model_name top_k i.
Proof.
  intros Hi. unfold round_trace, spec_round_calls, spec_debate_calls.
  rewrite agent_calls_app, calls_agent_steps.
  rewrite (map_enumerate_snd
             (fun doc => (model,
                          debate_prompt query (page_content doc)
                            (join nl (answers (round_state (i - 1))))
                            (guidance (round_state (i - 1))),
                          query))).
  change (next_round (round_state (i - 1))) with (round_state (S (i - 1))).
  replace (S (i - 1)) with i by lia. reflexivity.
Qed.

Lemma yielded_rounds (start n : nat) :
  (0 < start)%nat ->
  yielded (flat_map (fun i => round_trace s documents query model_name top_k
                                (Z.of_nat i) (round_state (i - 1)))
                    (seq start n))
  = map EvStep (flat_map (round_steps s documents query model_name top_k)
                         (seq start n)).
Proof.
  revert start. induction n as [|n IH]; intros start Hstart; simpl; [reflexivity|].
  rewrite yielded_app, map_app, yielded_round_trace, IH by lia. reflexivity.
Qed.

Lemma calls_rounds (start n : nat) :
  (0 < start)%nat ->
  agent_calls (flat_map (fun i => round_trace s documents query model_name top_k
                                    (Z.of_nat i) (round_state (i - 1)))
                        (seq start n))
  = flat_map (spec_round_calls s documents query model_name top_k) (seq start n).
Proof.
  revert start. induction n as [|n IH]; intros start Hstart; simpl; [reflexivity|].
  rewrite agent_calls_app, calls_round_trace, IH by lia. reflexivity.
Qed.

(** The events of a run that passes validation. *)
Lemma yielded_stub_trace (limit rounds : Z) :
  yielded (stub_trace s documents query model_name top_k limit rounds)
  = (map EvStep (stub_steps s documents query model_name top_k limit rounds)
     ++ [EvDone (message (synthesis_step s documents query model_name top_k rounds))
                (stub_stats s documents query model_name top_k rounds) query])%list.
Proof.
  unfold stub_trace, stub_steps. cbv zeta.
  rewrite rounds_trace_all.
  rewrite !yielded_app, !map_app.
  unfold evidence_trace. rewrite yielded_agent_steps, yielded_rounds by lia.
  rewrite map_map. rewrite <- !app_assoc. reflexivity.
Qed.

(** The agent calls of a run that passes validation. *)
Lemma calls_stub_trace (limit rounds : Z) :
  agent_calls (stub_trace s documents query model_name top_k limit rounds)
  = stub_calls s documents query model_name top_k rounds.
Proof.
  unfold stub_trace, stub_calls. cbv zeta.
  rewrite rounds_trace_all.
  rewrite !agent_calls_app.
  unfold evidence_trace. rewrite calls_agent_steps, calls_rounds by lia.
  unfold spec_evidence_calls.
  rewrite (map_enumerate_snd
             (fun doc => (model, evidence_prompt query (page_content doc), query))).
  reflexivity.
Qed.

Lemma step_payloads_steps (steps : list DebateStep) :
  step_payloads (map EvStep steps) = steps.
Proof. induction steps as [|st steps IH]; simpl; [reflexivity|]. now rewrite IH. Qed.

Lemma step_payloads_stub_trace (limit rounds : Z) :
  step_payloads (yielded (stub_trace s documents query model_name top_k limit rounds))
  = stub_steps s documents query model_name top_k limit rounds.
Proof.
  rewrite yielded_stub_trace, step_payloads_app, step_payloads_steps.
  apply app_nil_r.
Qed.

End StubLemmas.

(** ** Filtering and counting steps *)

Lemma filter_none {A : Type} (p : A -> bool) (l : list A) :
  (forall x, In x l -> p x = false) -> filter p l = [].
Proof.
  induction l as [|x l IH]; intros H; simpl; [reflexivity|].
  rewrite (H x (or_introl eq_refl)). apply IH. intros y Hy. apply H. now right.
Qed.

Lemma filter_all {A : Type} (p : A -> bool) (l : list A) :
  (forall x, In x l -> p x = true) -> filter p l = l.
Proof.
  induction l as [|x l IH]; intros H; simpl; [reflexivity|].
  rewrite (H x (or_introl eq_refl)). f_equal. apply IH. intros y Hy. apply H. now right.
Qed.

(** Filtering the blocks [f i] by a predicate that asks for the block [r]
    and for [q] leaves the block [r], filtered by [q]. *)
Lemma filter_flat_map_pick {A : Type} (p q : A -> bool) (f : nat -> list A)
    (l : list nat) (r : nat) :
  NoDup l -> In r l ->
  (forall i x, In i l -> In x (f i) -> p x = Nat.eqb i r && q x) ->
  filter p (flat_map f l) = filter q (f r).
Proof.
  intros Hnd Hin Hp. induction l as [|i l IH]; [destruct Hin|].
  simpl. rewrite filter_app. inversion Hnd as [|? ? Hnotin Hnd']; subst.
  destruct Hin as [->|Hin].
  - rewrite (filter_ext_in p q (f r)).
    + rewrite (filter_none p (flat_map f l)); [apply app_nil_r|].
      intros x Hx. apply in_flat_map in Hx as (j & Hj & Hx).
      rewrite (Hp j x (or_intror Hj) Hx).
      destruct (Nat.eqb_spec j r); [congruence|reflexivity].
    + intros x Hx. rewrite (Hp r x (or_introl eq_refl) Hx).
      now rewrite Nat.eqb_refl.
  - rewrite (filter_none p (f i)).
    + apply IH; [assumption|assumption|].
      intros j x Hj Hx. apply Hp; [now right|assumption].
    + intros x Hx. rewrite (Hp i x (or_introl eq_refl) Hx).
      destruct (Nat.eqb_spec i r); [congruence|reflexivity].
Qed.

Lemma filter_flat_map_none {A B : Type} (p : A -> bool) (f : B -> list A)
    (l : list B) :
  (forall i x, In i l -> In x (f i) -> p x = false) ->
  filter p (flat_map f l) = [].
Proof.
  intros Hp. apply filter_none. intros x Hx.
  apply in_flat_map in Hx as (j & Hj & Hx). now apply (Hp j).
Qed.

Lemma length_concat_repeat {A : Type} (block : list A) (n : nat) :
  List.length (concat (repeat block n)) = (n * List.length block)%nat.
Proof.
  induction n as [|n IH]; simpl; [reflexivity|].
  now rewrite length_app, IH.
Qed.

Section StepLemmas.

Context {Model Store : Type} (s : Stubs Model Store).
Variables (documents : list string) (query model_name : string) (top_k : Z).

Local Abbreviation retrieved := (stub_retrieved s documents query top_k).
Local Abbreviation round_state := (spec_round_state s documents query model_name top_k).
Local Abbreviation steps_of_round := (round_steps s documents query model_name top_k).
Local Abbreviation evidence_steps :=
  (map (evidence_step s query model_name) (enumerate 1 retrieved)).

Lemma evidence_steps_spec (st : DebateStep) :
  In st evidence_steps -> stage st = "evidence" /\ round st = Some 0.
Proof.
  intros H. apply in_map_iff in H as ([idx doc] & <- & _). split; reflexivity.
Qed.

Lemma evidence_steps_stages :
  map stage evidence_steps = repeat "evidence" (List.length retrieved).
Proof.
  rewrite map_map. generalize 1 at 1. induction retrieved as [|doc l IH];
    intros start; simpl; [reflexivity|].
  now rewrite IH.
Qed.

Lemma evidence_steps_messages :
  map message evidence_steps = answers (round_state 0).
Proof.
  rewrite map_map. unfold answers. simpl fst.
  rewrite <- (map_enumerate_snd
                (fun doc => stub_answer s query model_name
                              (evidence_prompt query (page_content doc))) 1).
  apply map_ext. now intros [idx doc].
Qed.

Lemma debate_steps_spec (r : Z) (prev : RoundState) (st : DebateStep) :
  In st (map (debate_step s query model_name r prev) (enumerate 1 retrieved)) ->
  stage st = "debate" /\ round st = Some r.
Proof.
  intros H. apply in_map_iff in H as ([idx doc] & <- & _). split; reflexivity.
Qed.

Lemma round_steps_spec (i : nat) (st : DebateStep) :
  In st (steps_of_round i) ->
  (stage st = "debate" \/ stage st = "ambiguity") /\ round st = Some (Z.of_nat i).
Proof.
  unfold round_steps. intros H. apply in_app_or in H as [H|[<-|[]]].
  - apply debate_steps_spec in H as [H1 H2]. auto.
  - split; [right|]; reflexivity.
Qed.

Lemma round_steps_stages (i : nat) :
  map stage (steps_of_round i)
  = (repeat "debate" (List.length retrieved) ++ ["ambiguity"])%list.
Proof.
  unfold round_steps. rewrite map_app, map_map. f_equal.
  generalize 1 at 1. induction retrieved as [|doc l IH];
    intros start; simpl; [reflexivity|].
  now rewrite IH.
Qed.

Lemma rounds_stages (start n : nat) :
  map stage (flat_map steps_of_round (seq start n))
  = concat (repeat (repeat "debate" (List.length retrieved) ++ ["ambiguity"])%list n).
Proof.
  revert start. induction n as [|n IH]; intros start; simpl; [reflexivity|].
  now rewrite map_app, round_steps_stages, IH.
Qed.

Lemma round_steps_messages (i : nat) :
  (0 < i)%nat ->
  map message (filter (has_stage "debate") (steps_of_round i)) = answers (round_state i)
  /\ map message (filter (has_stage "ambiguity") (steps_of_round i))
     = [guidance (round_state i)].
Proof.
  intros Hi. unfold round_steps. rewrite !filter_app. split.
  - rewrite filter_all by (intros st Hst; apply debate_steps_spec in Hst as [H _];
                           unfold has_stage; now rewrite H).
    simpl. rewrite app_nil_r, map_map.
    destruct i as [|i]; [lia|]. replace (S i - 1)%nat with i by lia.
    unfold answers. simpl fst.
    rewrite <- (map_enumerate_snd
                  (fun doc => stub_answer s query model_name
                                (debate_prompt query (page_content doc)
                                   (join nl (fst (round_state i)))
                                   (snd (round_state i)))) 1).
    apply map_ext. now intros [idx doc].
  - rewrite filter_none by (intros st Hst; apply debate_steps_spec in Hst as [H _];
                            unfold has_stage; now rewrite H).
    reflexivity.
Qed.

End StepLemmas.

Lemma clean_documents_nonempty (documents : list string) :
  documents <> [] ->
  Forall (fun doc => truthy (strip doc) = true) documents ->
  clean_documents documents <> [].
Proof.
  intros Hne Hall. destruct documents as [|doc rest]; [congruence|].
  inversion Hall as [|? ? Hdoc _]; subst.
  unfold clean_documents. simpl. rewrite Hdoc. discriminate.
Qed.

Section StepCounts.

Context {Model Store : Type} (s : Stubs Model Store).
Variables (documents : list string) (query model_name : string) (top_k : Z).
Variables (limit rounds : Z).

Local Abbreviation retrieved := (stub_retrieved s documents query top_k).
Local Abbreviation steps := (stub_steps s documents query model_name top_k limit rounds).

Lemma stub_steps_stages :
  map stage steps
  = (["setup"; "indexing"; "setup"; "retrieval"]
     ++ repeat "evidence" (List.length retrieved)
     ++ ["ambiguity"]
     ++ concat (repeat (repeat "debate" (List.length retrieved) ++ ["ambiguity"])%list
                       (Z.to_nat rounds))
     ++ ["synthesis"])%list.
Proof.
  unfold stub_steps. rewrite !map_app.
  rewrite evidence_steps_stages, rounds_stages. reflexivity.
Qed.

Lemma stub_steps_length :
  0 <= rounds ->
  len steps
  = 2 + 1 + 1 + len retrieved + 1 + rounds * (len retrieved + 1) + 1.
Proof.
  intros Hrounds. unfold len. rewrite <- (length_map stage), stub_steps_stages.
  rewrite !length_app, length_concat_repeat, length_app, !repeat_length.
  simpl List.length. nia.
Qed.

Lemma stub_steps_evidence :
  filter (fun st => has_stage "evidence" st && in_round 0 st) steps
  = map (evidence_step s query model_name) (enumerate 1 retrieved).
Proof.
  unfold stub_steps. rewrite !filter_app.
  rewrite (filter_all _ (map _ _)).
  2:{ intros st Hst. apply evidence_steps_spec in Hst as [H1 H2].
      unfold has_stage, in_round. now rewrite H1, H2. }
  rewrite (filter_flat_map_none _ _ (seq 1 (Z.to_nat rounds))).
  2:{ intros i st _ Hst. apply round_steps_spec in Hst as [[H|H] _];
      unfold has_stage; now rewrite H. }
  simpl. now rewrite app_nil_r.
Qed.

(** The steps tagged with a debate round are those of its block. *)
Lemma stub_steps_in_round (q : DebateStep -> bool) (r : nat) :
  q (synthesis_step s documents query model_name top_k rounds) = false ->
  (1 <= r <= Z.to_nat rounds)%nat ->
  filter (fun st => in_round (Z.of_nat r) st && q st) steps
  = filter q (round_steps s documents query model_name top_k r).
Proof.
  intros Hsyn Hr. unfold stub_steps. rewrite !filter_app.
  rewrite (filter_none _ (map _ _)).
  2:{ intros st Hst. apply evidence_steps_spec in Hst as [_ H2].
      unfold in_round. rewrite H2. apply andb_false_iff. left.
      apply Z.eqb_neq. lia. }
  rewrite (filter_flat_map_pick _ q _ (seq 1 (Z.to_nat rounds)) r).
  - cbn [filter]. rewrite Hsyn, andb_false_r.
    replace (in_round (Z.of_nat r)
               (ambiguity_step 0 (spec_round_zero s documents query model_name top_k)))
      with false by (symmetry; apply Z.eqb_neq; lia).
    cbn [in_round plain_step round andb app]. apply app_nil_r.
  - apply seq_NoDup.
  - apply in_seq. lia.
  - intros i st _ Hst. apply round_steps_spec in Hst as [_ Hround].
    unfold in_round. rewrite Hround. f_equal.
    destruct (Z.eqb_spec (Z.of_nat i) (Z.of_nat r));
      destruct (Nat.eqb_spec i r); try reflexivity; lia.
Qed.

(** The steps tagged with round 0 are the evidence steps and the first
    ambiguity step. *)
Lemma stub_steps_in_round_zero (q : DebateStep -> bool) :
  q (synthesis_step s documents query model_name top_k rounds) = false ->
  filter (fun st => in_round 0 st && q st) steps
  = filter q (map (evidence_step s query model_name) (enumerate 1 retrieved)
              ++ [ambiguity_step 0 (spec_round_zero s documents query model_name top_k)]).
Proof.
  intros Hsyn. unfold stub_steps. rewrite !filter_app.
  rewrite (filter_ext_in _ q (map _ _)).
  2:{ intros st Hst. apply evidence_steps_spec in Hst as [_ H2].
      unfold in_round. now rewrite H2. }
  rewrite (filter_flat_map_none _ _ (seq 1 (Z.to_nat rounds))).
  2:{ intros i st Hi Hst. apply round_steps_spec in Hst as [_ Hround].
      apply in_seq in Hi. unfold in_round. rewrite Hround.
      apply andb_false_iff. left. apply Z.eqb_neq. lia. }
  cbn [filter]. rewrite Hsyn, andb_false_r.
  cbn [in_round plain_step ambiguity_step round andb app Z.eqb].
  now rewrite app_nil_r.
Qed.

Lemma stub_steps_round (r : nat) :
  (1 <= r <= Z.to_nat rounds)%nat ->
  filter (of_debate_round (Z.of_nat r)) steps
  = round_steps s documents query model_name top_k r.
Proof.
  intros Hr.
  change (of_debate_round (Z.of_nat r))
    with (fun st => in_round (Z.of_nat r) st
                    && (fun st' => has_stage "debate" st' || has_stage "ambiguity" st') st).
  rewrite stub_steps_in_round by (reflexivity || assumption).
  apply filter_all. intros st Hst.
  apply round_steps_spec in Hst as [[H|H] _]; unfold has_stage; rewrite H;
    reflexivity.
Qed.

(** The answers and the guidance of a round are what its steps carry. *)
Lemma stub_steps_carry_state (r : nat) :
  (r <= Z.to_nat rounds)%nat ->
  map message (filter (carries_answer (Z.of_nat r)) steps)
  = answers (spec_round_state s documents query model_name top_k r)
  /\ map message (filter (fun st => in_round (Z.of_nat r) st
                                    && has_stage "ambiguity" st) steps)
     = [guidance (spec_round_state s documents query model_name top_k r)].
Proof.
  intros Hr.
  change (carries_answer (Z.of_nat r))
    with (fun st => in_round (Z.of_nat r) st
                    && (fun st' => has_stage "evidence" st' || has_stage "debate" st') st).
  destruct r as [|r].
  - change (Z.of_nat 0) with 0.
    rewrite !stub_steps_in_round_zero by reflexivity.
    rewrite !filter_app. split.
    + rewrite filter_all.
      2:{ intros st Hst. apply evidence_steps_spec in Hst as [H _].
          unfold has_stage. now rewrite H. }
      cbn [filter]. cbn. rewrite app_nil_r. apply evidence_steps_messages.
    + rewrite filter_none.
      2:{ intros st Hst. apply evidence_steps_spec in Hst as [H _].
          unfold has_stage. now rewrite H. }
      reflexivity.
  - rewrite !stub_steps_in_round by (reflexivity || lia).
    destruct (round_steps_messages s documents query model_name top_k (S r))
      as [Hans Hgui]; [lia|].
    split; [|exact Hgui].
    rewrite <- Hans. f_equal. apply filter_ext_in. intros st Hst.
    apply round_steps_spec in Hst as [[H|H] _]; unfold has_stage; rewrite H;
      reflexivity.
Qed.

End StepCounts.

(** ** The stage-count invariant *)

Lemma filter_is_step_steps (steps : list DebateStep) (final : event) :
  is_step final = false ->
  filter is_step (map EvStep steps ++ [final]) = map EvStep steps.
Proof.
  intros Hfinal. rewrite filter_app. simpl. rewrite Hfinal, app_nil_r.
  apply filter_all. intros e He. apply in_map_iff in He as (st & <- & _).
  reflexivity.
Qed.

(** C1. With stub collaborators, the credential present, a non-empty list
    of non-empty documents, [rounds] between 1 and 4 and [R] retrieved
    chunks, the generator ends normally and its steps are: [R] evidence
    steps in round 0; the stage sequence setup, indexing, setup, retrieval,
    [R] times evidence, ambiguity, then per debate round [R] times debate
    followed by one ambiguity, then synthesis; the steps each debate round
    contributes are [R] debate steps followed by one ambiguity step; the
    step events number 2 + 1 + 1 + R + 1 + rounds * (R + 1) + 1; and the
    done event that follows them reports [R] as the number of retrieved
    chunks. *)
Theorem step_sequence_invariant {Model Store : Type} (s : Stubs Model Store)
    (documents : list string) (query model_name : string) (top_k rounds : Z)
    (R : nat) :
  env_missing (stub_getenv s "OPENAI_API_KEY") = false ->
  documents <> [] ->
  Forall (fun doc => truthy (strip doc) = true) documents ->
  1 <= rounds <= 4 ->
  List.length (stub_retrieved s documents query top_k) = R ->
  exists trace,
    stream_debate (world_of_stubs s) documents query model_name top_k rounds
    = (trace, inr tt)
    /\ let steps := step_payloads (yielded trace) in
       count_steps (fun st => has_stage "evidence" st && in_round 0 st) steps
       = Z.of_nat R
       /\ map stage steps
          = (["setup"; "indexing"; "setup"; "retrieval"]
             ++ repeat "evidence" R
             ++ ["ambiguity"]
             ++ concat (repeat (repeat "debate" R ++ ["ambiguity"])%list
                               (Z.to_nat rounds))
             ++ ["synthesis"])%list
       /\ (forall r, 1 <= r <= rounds ->
             map stage (filter (of_debate_round r) steps)
             = (repeat "debate" R ++ ["ambiguity"])%list)
       /\ len (filter is_step (yielded trace))
          = 2 + 1 + 1 + Z.of_nat R + 1 + rounds * (Z.of_nat R + 1) + 1
       /\ exists final_answer stats,
            yielded trace
            = (map EvStep steps ++ [EvDone final_answer stats query])%list
            /\ dict_get "retrieved" stats = Some (PInt (Z.of_nat R)).
Proof.
  intros Henv Hne Hall Hrounds HR.
  pose proof (clean_documents_nonempty documents Hne Hall) as Hclean.
  eexists. split.
  { unfold stream_debate. now apply stream_debate_with_stub_run. }
  cbv zeta. rewrite step_payloads_stub_trace. subst R. repeat split.
  - unfold count_steps, len.
    now rewrite stub_steps_evidence, length_map, enumerate_length.
  - apply stub_steps_stages.
  - intros r Hr.
    replace r with (Z.of_nat (Z.to_nat r)) by lia.
    rewrite stub_steps_round by lia. apply round_steps_stages.
  - rewrite yielded_stub_trace, filter_is_step_steps by reflexivity.
    unfold len. rewrite length_map.
    apply (stub_steps_length s documents query model_name top_k
             compact_default_limit rounds). lia.
  - rewrite yielded_stub_trace. eexists; eexists. split; reflexivity.
Qed.

Lemma step_sequence_invariant_witness :
  exists trace,
    stream_debate (world_of_stubs (Demo.demo_stubs (Some "sk-test")))
                  Demo.two_documents Demo.demo_query DEFAULT_MODEL 2 1
    = (trace, inr tt)
    /\ let steps := step_payloads (yielded trace) in
       count_steps (fun st => has_stage "evidence" st && in_round 0 st) steps
       = Z.of_nat 2
       /\ map stage steps
          = (["setup"; "indexing"; "setup"; "retrieval"]
             ++ repeat "evidence" 2
             ++ ["ambiguity"]
             ++ concat (repeat (repeat "debate" 2 ++ ["ambiguity"])%list
                               (Z.to_nat 1))
             ++ ["synthesis"])%list
       /\ (forall r, 1 <= r <= 1 ->
             map stage (filter (of_debate_round r) steps)
             = (repeat "debate" 2 ++ ["ambiguity"])%list)
       /\ len (filter is_step (yielded trace))
          = 2 + 1 + 1 + Z.of_nat 2 + 1 + 1 * (Z.of_nat 2 + 1) + 1
       /\ exists final_answer stats,
            yielded trace
            = (map EvStep steps
               ++ [EvDone final_answer stats Demo.demo_query])%list
            /\ dict_get "retrieved" stats = Some (PInt (Z.of_nat 2)).
Proof.
  apply (step_sequence_invariant (Demo.demo_stubs (Some "sk-test"))
           Demo.two_documents Demo.demo_query DEFAULT_MODEL 2 1 2).
  - reflexivity.
  - discriminate.
  - repeat constructor.
  - lia.
  - reflexivity.
Defined.

(** ** What the prompts are built from *)

Lemma contains_here (part back : string) : contains (part ++ back) part.
Proof. exists EmptyString, back. reflexivity. Qed.

Lemma contains_later (front rest part : string) :
  contains rest part -> contains (front ++ rest) part.
Proof.
  intros (a & b & ->). exists (front ++ a), b.
  induction front as [|c front IH]; simpl; [reflexivity|]. now rewrite IH.
Qed.

Ltac find_part :=
  repeat first [ apply contains_here | apply contains_later ].

Lemma debate_prompt_contains (query doc responses guidance : string) :
  contains (debate_prompt query doc responses guidance) doc
  /\ contains (debate_prompt query doc responses guidance) responses
  /\ contains (debate_prompt query doc responses guidance) guidance.
Proof. unfold debate_prompt. repeat split; find_part. Qed.

Lemma evidence_prompt_contains (query doc : string) :
  contains (evidence_prompt query doc) doc.
Proof. unfold evidence_prompt. find_part. Qed.

Lemma summarizer_prompt_contains (query responses : string) :
  contains (summarizer_prompt query responses) responses.
Proof. unfold summarizer_prompt. find_part. Qed.

Lemma ambiguity_prompt_contains (query responses : string) :
  contains (ambiguity_prompt query responses) responses.
Proof. unfold ambiguity_prompt. find_part. Qed.

(** C7. With stub collaborators, in a run that passes validation: the
    answers and the guidance of the round states, built as the
    specification words them, are the messages of the steps the run emits
    in that round; the agent calls are, in order, one evidence call per
    retrieved chunk, the ambiguity check on the round-0 answers, then for
    each debate round [r] one call per retrieved chunk in retrieval order
    whose prompt is built from the chunk, the answers of round [r - 1] and
    the guidance produced after round [r - 1], followed by the ambiguity
    check on the new answers of round [r], and last the synthesis call on
    the answers of the final round; each debate prompt contains that
    state's answers and guidance in full; the ambiguity check of every
    round is a call whose prompt contains the answers of that same round in
    full and whose answer is the guidance of that round; and the last call,
    the synthesis, has a prompt that contains the answers of the final
    round in full and its answer is the final answer of the done event. *)
Theorem debate_rounds_consume_previous_state {Model Store : Type}
    (s : Stubs Model Store) (documents : list string)
    (query model_name : string) (top_k rounds : Z) :
  env_missing (stub_getenv s "OPENAI_API_KEY") = false ->
  clean_documents documents <> [] ->
  let model := stub_chat_model s model_name in
  let retrieved := stub_retrieved s documents query top_k in
  let state := spec_round_state s documents query model_name top_k in
  exists trace,
    stream_debate (world_of_stubs s) documents query model_name top_k rounds
    = (trace, inr tt)
    /\ (forall r : nat, (r <= Z.to_nat rounds)%nat ->
          map message (filter (carries_answer (Z.of_nat r))
                              (step_payloads (yielded trace)))
          = answers (state r)
          /\ map message (filter (fun st => in_round (Z.of_nat r) st
                                            && has_stage "ambiguity" st)
                                 (step_payloads (yielded trace)))
             = [guidance (state r)])
    /\ agent_calls trace
       = (map (fun doc => (model, evidence_prompt query (page_content doc), query))
              retrieved
          ++ [(model, ambiguity_prompt query (join nl (answers (state 0%nat))), query)]
          ++ flat_map
               (fun r =>
                  map (fun doc =>
                         (model,
                          debate_prompt query (page_content doc)
                            (join nl (answers (state (r - 1)%nat)))
                            (guidance (state (r - 1)%nat)),
                          query))
                      retrieved
                  ++ [(model, ambiguity_prompt query (join nl (answers (state r))),
                       query)])
               (seq 1 (Z.to_nat rounds))
          ++ [(model,
               summarizer_prompt query
                 (join nl (answers (state (Z.to_nat rounds)))),
               query)])%list
    /\ (forall (r : nat) (doc : Document),
          (1 <= r <= Z.to_nat rounds)%nat -> In doc retrieved ->
          exists prompt,
            In (model, prompt, query) (agent_calls trace)
            /\ contains prompt (page_content doc)
            /\ contains prompt (join nl (answers (state (r - 1)%nat)))
            /\ contains prompt (guidance (state (r - 1)%nat)))
    /\ (forall r : nat, (r <= Z.to_nat rounds)%nat ->
          exists prompt,
            In (model, prompt, query) (agent_calls trace)
            /\ contains prompt (join nl (answers (state r)))
            /\ stub_answer s query model_name prompt = guidance (state r))
    /\ (exists prompt stats,
          List.last (agent_calls trace) (model, EmptyString, EmptyString)
          = (model, prompt, query)
          /\ contains prompt (join nl (answers (state (Z.to_nat rounds))))
          /\ List.last (yielded trace) EvSentinel
             = EvDone (stub_answer s query model_name prompt) stats query).
Proof.
  intros Henv Hclean model retrieved state.
  eexists. split.
  { unfold stream_debate. now apply stream_debate_with_stub_run. }
  rewrite step_payloads_stub_trace, calls_stub_trace, yielded_stub_trace.
  split; [|split; [|split; [|split]]].
  - intros r Hr. now apply stub_steps_carry_state.
  - reflexivity.
  - intros r doc Hr Hdoc.
    exists (debate_prompt query (page_content doc)
              (join nl (answers (state (r - 1)%nat)))
              (guidance (state (r - 1)%nat))).
    split; [|apply debate_prompt_contains].
    unfold stub_calls. apply in_or_app. right. apply in_or_app. right.
    apply in_or_app. left. apply in_flat_map. exists r. split.
    + apply in_seq. lia.
    + unfold spec_round_calls, spec_debate_calls. apply in_or_app. left.
      apply in_map_iff. exists doc. split; [reflexivity|assumption].
  - intros r Hr.
    exists (ambiguity_prompt query (join nl (answers (state r)))).
    split; [|split; [apply ambiguity_prompt_contains|]].
    + unfold stub_calls. apply in_or_app. right.
      destruct r as [|r].
      * apply in_or_app. left. left. reflexivity.
      * apply in_or_app. right. apply in_or_app. left.
        apply in_flat_map. exists (S r). split; [apply in_seq; lia|].
        unfold spec_round_calls. apply in_or_app. right. left. reflexivity.
    + destruct r; reflexivity.
  - exists (summarizer_prompt query (join nl (answers (state (Z.to_nat rounds))))),
           (stub_stats s documents query model_name top_k rounds).
    split; [|split; [apply summarizer_prompt_contains|]].
    + unfold stub_calls. rewrite !app_assoc. apply last_last.
    + apply last_last.
Qed.

Lemma debate_rounds_consume_previous_state_witness :
  exists trace,
    stream_debate (world_of_stubs (Demo.demo_stubs (Some "sk-test")))
                  Demo.two_documents Demo.demo_query DEFAULT_MODEL 2 2
    = (trace, inr tt)
    /\ map (fun call => snd (fst call)) (agent_calls trace)
       = (let state := spec_round_state (Demo.demo_stubs (Some "sk-test"))
                         Demo.two_documents Demo.demo_query DEFAULT_MODEL 2 in
          let first := "Paris is the capital of France." in
          let second := "Lyon is a city in France." in
          [evidence_prompt Demo.demo_query first;
           evidence_prompt Demo.demo_query second;
           ambiguity_prompt Demo.demo_query (join nl (answers (state 0%nat)));
           debate_prompt Demo.demo_query first
             (join nl (answers (state 0%nat))) (guidance (state 0%nat));
           debate_prompt Demo.demo_query second
             (join nl (answers (state 0%nat))) (guidance (state 0%nat));
           ambiguity_prompt Demo.demo_query (join nl (answers (state 1%nat)));
           debate_prompt Demo.demo_query first
             (join nl (answers (state 1%nat))) (guidance (state 1%nat));
           debate_prompt Demo.demo_query second
             (join nl (answers (state 1%nat))) (guidance (state 1%nat));
           ambiguity_prompt Demo.demo_query (join nl (answers (state 2%nat)));
           summarizer_prompt Demo.demo_query (join nl (answers (state 2%nat)))])
    /\ (exists prompt stats,
          List.last (agent_calls trace) (DEFAULT_MODEL, EmptyString, EmptyString)
          = (DEFAULT_MODEL, prompt, Demo.demo_query)
          /\ contains prompt ("Answer: 372." ++ nl ++ "Answer: 366.")
          /\ List.last (yielded trace) EvSentinel
             = EvDone (stub_answer (Demo.demo_stubs (Some "sk-test"))
                         Demo.demo_query DEFAULT_MODEL prompt)
                      stats Demo.demo_query).
Proof.
  destruct (debate_rounds_consume_previous_state
              (Demo.demo_stubs (Some "sk-test")) Demo.two_documents
              Demo.demo_query DEFAULT_MODEL 2 2)
    as (trace & Hrun & _ & Hcalls & _ & _ & (prompt & stats & Hlast & Hin & Hdone)).
  - reflexivity.
  - discriminate.
  - exists trace. split; [exact Hrun|]. split.
    + rewrite Hcalls. reflexivity.
    + exists prompt, stats. split; [exact Hlast|]. split; [exact Hin|exact Hdone].
Defined.

(** ** The preview limit *)

Section PreviewLimit.

Context {Model Store : Type} (w : World Model Store).

Lemma same_refl {A : Type} (m : Gen Model A) : same_but_retrieval m m.
Proof. split; reflexivity. Qed.

Lemma same_bind {A B : Type} (m1 m2 : Gen Model A) (k1 k2 : A -> Gen Model B) :
  same_but_retrieval m1 m2 ->
  (forall a, same_but_retrieval (k1 a) (k2 a)) ->
  same_but_retrieval (bind m1 k1) (bind m2 k2).
Proof.
  unfold same_but_retrieval, hide_retrieval.
  destruct m1 as [t1 r1], m2 as [t2 r2]. simpl. intros [Ht <-] Hk.
  destruct r1 as [e|a]; simpl; [now split|].
  specialize (Hk a). destruct (k1 a) as [t1' r1'], (k2 a) as [t2' r2'].
  simpl in *. destruct Hk as [Ht' <-]. split; [|reflexivity].
  now rewrite !filter_app, Ht, Ht'.
Qed.

Lemma agent_calls_hide (t : list (effect Model)) :
  agent_calls (hide_retrieval t) = agent_calls t.
Proof.
  induction t as [|x t IH]; simpl; [reflexivity|].
  destruct x as [e|m p q]; simpl.
  - destruct e; simpl; try exact IH.
    destruct (has_stage "retrieval" data); simpl; exact IH.
  - now rewrite IH.
Qed.

(** Two runs that differ in the preview limit only differ at most in the
    retrieval summary. *)
Lemma stream_debate_with_limit_hidden (limit1 limit2 : Z)
    (documents : list string) (query model_name : string) (top_k rounds : Z) :
  same_but_retrieval
    (stream_debate_with w limit1 documents query model_name top_k rounds)
    (stream_debate_with w limit2 documents query model_name top_k rounds).
Proof.
  unfold stream_debate_with.
  destruct (env_missing _); [apply same_refl|].
  cbv zeta. destruct (clean_documents documents) as [|d ds]; [apply same_refl|].
  do 8 (apply same_bind; [apply same_refl | intros ?]).
  apply same_bind; [split; reflexivity | intros ?].
  apply same_refl.
Qed.

End PreviewLimit.

(** C8. The preview limit is presentation-only.  In any world, two runs of
    the generator on the same input that differ only in the limit
    [_compact] is called with end the same way, make the same agent calls
    with the same prompts in the same order, and yield the same events
    (evidence, ambiguity, debate and synthesis steps and the done event with
    the final answer) apart from the retrieval summary.  With stubs, every
    evidence and debate call of a run that passes validation is made with a
    prompt that holds the full text of its chunk. *)
Theorem preview_limit_is_presentation_only :
  (forall (Model Store : Type) (w : World Model Store) (limit1 limit2 : Z)
          (documents : list string) (query model_name : string)
          (top_k rounds : Z),
     let run1 := stream_debate_with w limit1 documents query model_name top_k rounds in
     let run2 := stream_debate_with w limit2 documents query model_name top_k rounds in
     snd run1 = snd run2
     /\ agent_calls (fst run1) = agent_calls (fst run2)
     /\ hide_retrieval (fst run1) = hide_retrieval (fst run2))
  /\ (forall (Model Store : Type) (s : Stubs Model Store) (limit : Z)
             (documents : list string) (query model_name : string)
             (top_k rounds : Z),
        env_missing (stub_getenv s "OPENAI_API_KEY") = false ->
        clean_documents documents <> [] ->
        let run := stream_debate_with (world_of_stubs s) limit documents query
                                      model_name top_k rounds in
        let state := spec_round_state s documents query model_name top_k in
        forall doc, In doc (stub_retrieved s documents query top_k) ->
          In (stub_chat_model s model_name,
              evidence_prompt query (page_content doc), query)
             (agent_calls (fst run))
          /\ contains (evidence_prompt query (page_content doc)) (page_content doc)
          /\ forall r : nat, (1 <= r <= Z.to_nat rounds)%nat ->
               let prompt := debate_prompt query (page_content doc)
                               (join nl (answers (state (r - 1)%nat)))
                               (guidance (state (r - 1)%nat)) in
               In (stub_chat_model s model_name, prompt, query)
                  (agent_calls (fst run))
               /\ contains prompt (page_content doc)).
Proof.
  split.
  - intros Model Store w limit1 limit2 documents query model_name top_k rounds
           run1 run2.
    destruct (stream_debate_with_limit_hidden w limit1 limit2 documents query
                model_name top_k rounds) as [Htrace Hout].
    fold run1 run2 in Htrace, Hout. repeat split; try assumption.
    rewrite <- (agent_calls_hide (fst run1)), <- (agent_calls_hide (fst run2)).
    now rewrite Htrace.
  - intros Model Store s limit documents query model_name top_k rounds
           Henv Hclean run state doc Hdoc.
    unfold run. rewrite stream_debate_with_stub_run by assumption.
    cbn [fst]. rewrite calls_stub_trace. unfold stub_calls.
    split; [|split].
    + apply in_or_app. left. unfold spec_evidence_calls.
      apply in_map_iff. exists doc. split; [reflexivity|assumption].
    + apply evidence_prompt_contains.
    + intros r Hr. cbv zeta. split; [|apply debate_prompt_contains].
      apply in_or_app. right. apply in_or_app. right.
      apply in_or_app. left. apply in_flat_map. exists r. split.
      * apply in_seq. lia.
      * unfold spec_round_calls, spec_debate_calls. apply in_or_app. left.
        apply in_map_iff. exists doc. split; [reflexivity|assumption].
Qed.

(** ** Blank documents *)

Lemma clean_documents_filter (documents : list string) :
  clean_documents (filter (fun doc => truthy (strip doc)) documents)
  = clean_documents documents.
Proof.
  unfold clean_documents. f_equal.
  induction documents as [|doc rest IH]; simpl; [reflexivity|].
  destruct (truthy (strip doc)) eqn:Hdoc; simpl.
  - now rewrite Hdoc, IH.
  - exact IH.
Qed.

Lemma clean_documents_empty (documents : list string) :
  clean_documents documents = []
  <-> Forall (fun doc => truthy (strip doc) = false) documents.
Proof.
  unfold clean_documents. induction documents as [|doc rest IH]; simpl.
  - split; [constructor|reflexivity].
  - destruct (truthy (strip doc)) eqn:Hdoc; simpl.
    + split; [discriminate|]. intros H. inversion H; congruence.
    + rewrite IH. split; [now constructor|]. intros H. now inversion H.
Qed.

(** C6. Blank entries are dropped.  In any world the generator and the
    batched form behave on a list of documents exactly as on its entries
    that are not blank (the same exception or the same events, steps and
    agent calls).  With stubs, the input error ([ValueError]) is raised only
    when every entry is blank, and it is raised then if the credential is
    present. *)
Theorem blank_documents_are_dropped :
  (forall (Model Store : Type) (w : World Model Store)
          (documents : list string) (query model_name : string)
          (top_k rounds : Z),
     let kept := filter (fun doc => truthy (strip doc)) documents in
     stream_debate w documents query model_name top_k rounds
     = stream_debate w kept query model_name top_k rounds
     /\ run_debate w documents query model_name top_k rounds
        = run_debate w kept query model_name top_k rounds)
  /\ (forall (Model Store : Type) (s : Stubs Model Store)
             (documents : list string) (query model_name : string)
             (top_k rounds : Z),
        ((exists msg,
            snd (stream_debate (world_of_stubs s) documents query model_name
                               top_k rounds) = inl (ValueError msg)) ->
         Forall (fun doc => truthy (strip doc) = false) documents)
        /\ (env_missing (stub_getenv s "OPENAI_API_KEY") = false ->
            Forall (fun doc => truthy (strip doc) = false) documents ->
            stream_debate (world_of_stubs s) documents query model_name
                          top_k rounds
            = ([], inl (ValueError "At least one non-empty document is required.")))).
Proof.
  split.
  - intros Model Store w documents query model_name top_k rounds kept.
    assert (Hsame : stream_debate w documents query model_name top_k rounds
                    = stream_debate w kept query model_name top_k rounds).
    { unfold stream_debate, stream_debate_with, kept.
      now rewrite clean_documents_filter. }
    split; [exact Hsame|]. unfold run_debate. now rewrite Hsame.
  - intros Model Store s documents query model_name top_k rounds. split.
    + intros [msg Hraised]. apply clean_documents_empty.
      destruct (env_missing (stub_getenv s "OPENAI_API_KEY")) eqn:Henv.
      * unfold stream_debate, stream_debate_with in Hraised.
        change (getenv (world_of_stubs s)) with (stub_getenv s) in Hraised.
        rewrite Henv in Hraised. discriminate Hraised.
      * destruct (clean_documents documents) as [|d ds] eqn:Hclean; [reflexivity|].
        unfold stream_debate in Hraised.
        rewrite stream_debate_with_stub_run in Hraised by congruence.
        discriminate Hraised.
    + intros Henv Hblank. apply clean_documents_empty in Hblank.
      unfold stream_debate, stream_debate_with.
      change (getenv (world_of_stubs s)) with (stub_getenv s).
      now rewrite Henv, Hblank.
Qed.

Lemma blank_documents_are_dropped_witness :
  Forall (fun doc => truthy (strip doc) = false) [""; "   "]
  /\ stream_debate (world_of_stubs (Demo.demo_stubs (Some "sk-test")))
                   [""; "   "] Demo.demo_query DEFAULT_MODEL 6 2
     = ([], inl (ValueError "At least one non-empty document is required.")).
Proof.
  assert (Hblank : Forall (fun doc => truthy (strip doc) = false) [""; "   "])
    by (repeat constructor).
  split; [exact Hblank|].
  apply (proj2 (proj2 blank_documents_are_dropped _ _
                  (Demo.demo_stubs (Some "sk-test")) [""; "   "]
                  Demo.demo_query DEFAULT_MODEL 6 2)).
  - reflexivity.
  - exact Hblank.
Defined.

(** ** No chunk retrieved *)

Section NoChunks.

Context {Model Store : Type} (s : Stubs Model Store).
Variables (documents : list string) (query model_name : string) (top_k : Z).
Hypothesis Hnone : stub_retrieved s documents query top_k = [].

Lemma round_state_no_chunks (r : nat) :
  spec_round_state s documents query model_name top_k r
  = ([], stub_answer s query model_name (ambiguity_prompt query EmptyString)).
Proof.
  induction r as [|r IH]; simpl.
  - unfold spec_round_zero. rewrite Hnone. reflexivity.
  - unfold spec_next_round. rewrite Hnone. reflexivity.
Qed.

Lemma round_steps_no_chunks (r : nat) :
  round_steps s documents query model_name top_k r
  = [ambiguity_step (Z.of_nat r)
       ([], stub_answer s query model_name (ambiguity_prompt query EmptyString))].
Proof. unfold round_steps. rewrite Hnone, !round_state_no_chunks. reflexivity. Qed.

Lemma round_calls_no_chunks (r : nat) :
  spec_round_calls s documents query model_name top_k r
  = [(stub_chat_model s model_name, ambiguity_prompt query EmptyString, query)].
Proof.
  unfold spec_round_calls, spec_debate_calls, spec_ambiguity_call.
  rewrite Hnone, !round_state_no_chunks. reflexivity.
Qed.

Lemma flat_map_singletons {A B : Type} (f : A -> list B) (g : A -> B) (l : list A) :
  (forall x, f x = [g x]) -> flat_map f l = map g l.
Proof.
  intros H. induction l as [|x l IH]; simpl; [reflexivity|]. now rewrite H, IH.
Qed.

End NoChunks.

(** C10. With stubs, when a run that passes validation retrieves no chunk,
    it still ends normally: the retrieval step carries the fallback text,
    no evidence or debate step is emitted, the ambiguity check runs once
    for round 0 and once per debate round and the synthesis runs once, all
    on the empty concatenation of answers, and the closing done event
    reports [retrieved = 0]. *)
Theorem zero_chunks_run_completes {Model Store : Type} (s : Stubs Model Store)
    (documents : list string) (query model_name : string) (top_k rounds : Z) :
  env_missing (stub_getenv s "OPENAI_API_KEY") = false ->
  clean_documents documents <> [] ->
  stub_retrieved s documents query top_k = [] ->
  let model := stub_chat_model s model_name in
  let guidance_text := stub_answer s query model_name
                         (ambiguity_prompt query EmptyString) in
  let final_answer := stub_answer s query model_name
                        (summarizer_prompt query EmptyString) in
  exists trace setup_message stats,
    stream_debate (world_of_stubs s) documents query model_name top_k rounds
    = (trace, inr tt)
    /\ yielded trace
       = ([EvStep (plain_step "setup" "System" setup_message);
           EvStep (plain_step "indexing" "Indexer"
                     "Embedding documents for retrieval...");
           EvStep (plain_step "setup" "System"
                     "Retrieved 0 chunks for the query.");
           EvStep (plain_step "retrieval" "Retriever" "No chunks retrieved.")]
          ++ map (fun r : nat =>
                    EvStep {| stage := "ambiguity"; speaker := "Ambiguity Solver";
                              message := guidance_text;
                              round := Some (Z.of_nat r); doc_id := None |})
                 (seq 0 (S (Z.to_nat rounds)))
          ++ [EvStep {| stage := "synthesis"; speaker := "Synthesizer";
                        message := final_answer; round := Some rounds;
                        doc_id := None |};
              EvDone final_answer stats query])%list
    /\ dict_get "retrieved" stats = Some (PInt 0)
    /\ filter (fun st => has_stage "evidence" st || has_stage "debate" st)
              (step_payloads (yielded trace)) = []
    /\ agent_calls trace
       = (repeat (model, ambiguity_prompt query EmptyString, query)
                 (S (Z.to_nat rounds))
          ++ [(model, summarizer_prompt query EmptyString, query)])%list.
Proof.
  intros Henv Hclean Hnone model guidance_text final_answer.
  eexists; eexists; eexists. split.
  { unfold stream_debate. now apply stream_debate_with_stub_run. }
  rewrite step_payloads_stub_trace, calls_stub_trace, yielded_stub_trace.
  unfold stub_steps, stub_calls, stub_stats, synthesis_step, retrieval_message,
    spec_evidence_calls, spec_ambiguity_call, spec_synthesis_call.
  rewrite (flat_map_singletons _ _ _ (round_steps_no_chunks s documents query
                                        model_name top_k Hnone)).
  rewrite (flat_map_singletons _ _ _ (round_calls_no_chunks s documents query
                                        model_name top_k Hnone)).
  rewrite (round_state_no_chunks s documents query model_name top_k Hnone
             (Z.to_nat rounds)).
  change (spec_round_zero s documents query model_name top_k)
    with (spec_round_state s documents query model_name top_k 0).
  rewrite (round_state_no_chunks s documents query model_name top_k Hnone 0).
  rewrite Hnone. cbv zeta.
  repeat split.
  - cbn [map enumerate app len List.length Z.of_nat answers fst guidance snd].
    rewrite !map_app, map_map. cbn [map app seq].
    rewrite <- app_assoc. reflexivity.
  - reflexivity.
  - cbn [map enumerate app]. apply filter_none. intros st Hst.
    do 5 (destruct Hst as [<-|Hst]; [reflexivity|]).
    apply in_app_or in Hst as [Hst|[<-|[]]]; [|reflexivity].
    apply in_map_iff in Hst as (r & <- & _). reflexivity.
  - cbn [map app answers fst seq]. f_equal.
    rewrite map_const. rewrite length_seq. reflexivity.
Qed.

Lemma zero_chunks_run_completes_witness :
  exists trace,
    stream_debate (world_of_stubs (Demo.demo_stubs (Some "sk-test")))
                  Demo.two_documents Demo.demo_query DEFAULT_MODEL 0 1
    = (trace, inr tt)
    /\ filter (fun st => has_stage "evidence" st || has_stage "debate" st)
              (step_payloads (yielded trace)) = []
    /\ List.length (agent_calls trace) = 3%nat.
Proof.
  destruct (zero_chunks_run_completes (Demo.demo_stubs (Some "sk-test"))
              Demo.two_documents Demo.demo_query DEFAULT_MODEL 0 1)
    as (trace & setup_message & stats & Hrun & _ & _ & Hnone & Hcalls).
  - reflexivity.
  - discriminate.
  - reflexivity.
  - exists trace. split; [exact Hrun|]. split; [exact Hnone|].
    rewrite Hcalls. reflexivity.
Defined.

(** ** The bridge between the worker thread and the relay loop *)

Lemma is_sentinel_true (e : event) : is_sentinel e = true -> e = EvSentinel.
Proof. destruct e; simpl; congruence. Qed.

Lemma relay_no_sentinel (l rest : list event) :
  no_sentinel l -> relay (l ++ rest) = (l ++ relay rest)%list.
Proof.
  unfold no_sentinel. induction l as [|e l IH]; simpl; intros H; [reflexivity|].
  apply andb_prop in H as [He Hl]. destruct (is_sentinel e); [discriminate|].
  now rewrite IH.
Qed.

Lemma relay_until_sentinel (l rest : list event) :
  no_sentinel l -> relay (l ++ EvSentinel :: rest) = l.
Proof.
  intros H. rewrite relay_no_sentinel by assumption. simpl. apply app_nil_r.
Qed.

Lemma steps_no_sentinel (l : list event) :
  forallb is_step l = true -> no_sentinel l.
Proof.
  unfold no_sentinel. induction l as [|e l IH]; simpl; intros H; [reflexivity|].
  apply andb_prop in H as [He Hl]. rewrite (IH Hl).
  now destruct e.
Qed.

Lemma no_sentinel_app (a b : list event) :
  no_sentinel a -> no_sentinel b -> no_sentinel (a ++ b).
Proof. unfold no_sentinel. intros Ha Hb. now rewrite forallb_app, Ha, Hb. Qed.

Lemma all_steps_are_payloads (l : list event) :
  forallb is_step l = true -> l = map EvStep (step_payloads l).
Proof.
  induction l as [|e l IH]; simpl; intros H; [reflexivity|].
  apply andb_prop in H as [He Hl]. destruct e; try discriminate He.
  simpl. now rewrite <- IH.
Qed.

Lemma bridge_invariant_start (produced : list event) :
  bridge_invariant produced (bridge_start produced).
Proof. split; reflexivity. Qed.

Lemma bridge_invariant_step (produced : list event) (st st' : bridge_state) :
  bridge_step st st' ->
  bridge_invariant produced st -> bridge_invariant produced st'.
Proof.
  unfold bridge_invariant.
  intros Hstep [Hdel Hprod]. destruct Hstep as [e rest q d r|e q p d He|e q p d He];
    simpl in *.
  - split; [assumption|]. now rewrite <- !app_assoc.
  - split.
    + apply no_sentinel_app; [assumption|].
      unfold no_sentinel. simpl. now rewrite He.
    + now rewrite <- !app_assoc.
  - split; [assumption|]. now rewrite (is_sentinel_true e He) in Hprod.
Qed.

Lemma bridge_invariant_steps (produced : list event) (st st' : bridge_state) :
  bridge_steps st st' ->
  bridge_invariant produced st -> bridge_invariant produced st'.
Proof.
  induction 1 as [|s1 s2 s3 Hstep _ IH]; [trivial|].
  intros Hinv. apply IH. now apply (bridge_invariant_step produced s1).
Qed.

Lemma bridge_steps_trans (a b c : bridge_state) :
  bridge_steps a b -> bridge_steps b c -> bridge_steps a c.
Proof.
  induction 1 as [|s1 s2 s3 Hstep _ IH]; [trivial|].
  intros H. eapply steps_then; [exact Hstep|]. now apply IH.
Qed.

(** The schedule that lets the worker finish first. *)
Lemma bridge_put_all (l q d : list event) (r : bool) :
  bridge_steps {| to_put := l; queue := q; delivered := d; relaying := r |}
               {| to_put := []; queue := (q ++ l)%list; delivered := d; relaying := r |}.
Proof.
  revert q. induction l as [|e l IH]; intros q.
  - rewrite app_nil_r. apply steps_refl.
  - eapply steps_then; [apply step_put|].
    replace (q ++ e :: l)%list with ((q ++ [e]) ++ l)%list
      by now rewrite <- app_assoc.
    apply IH.
Qed.

Lemma bridge_send_all (l q p d : list event) :
  no_sentinel l ->
  bridge_steps {| to_put := p; queue := (l ++ q)%list; delivered := d; relaying := true |}
               {| to_put := p; queue := q; delivered := (d ++ l)%list; relaying := true |}.
Proof.
  unfold no_sentinel. revert d. induction l as [|e l IH]; intros d Hl.
  - rewrite app_nil_r. apply steps_refl.
  - simpl in Hl. apply andb_prop in Hl as [He Hl].
    eapply steps_then.
    + apply step_send. now destruct (is_sentinel e).
    + replace (d ++ e :: l)%list with ((d ++ [e]) ++ l)%list
        by now rewrite <- app_assoc.
      now apply IH.
Qed.

Lemma bridge_completes (l : list event) :
  no_sentinel l ->
  exists final,
    bridge_steps (bridge_start (l ++ [EvSentinel])) final
    /\ relaying final = false.
Proof.
  intros Hl.
  exists {| to_put := []; queue := []; delivered := l; relaying := false |}.
  split; [|reflexivity].
  eapply bridge_steps_trans; [apply bridge_put_all|].
  eapply bridge_steps_trans; [apply (bridge_send_all l); assumption|].
  eapply steps_then; [now apply step_break|apply steps_refl].
Qed.

(** Every complete schedule delivers what the relay loop forwards. *)
Lemma bridge_delivers_relay (produced : list event) (final : bridge_state) :
  bridge_steps (bridge_start produced) final ->
  relaying final = false ->
  delivered final = relay produced.
Proof.
  intros Hsteps Hdone.
  destruct (bridge_invariant_steps produced _ _ Hsteps
              (bridge_invariant_start produced)) as [Hdel Hprod].
  rewrite Hdone in Hprod. rewrite Hprod. simpl.
  now rewrite relay_until_sentinel.
Qed.

(** At every moment the client has received a prefix of it. *)
Lemma bridge_delivers_prefix (produced : list event) (st : bridge_state) :
  bridge_steps (bridge_start produced) st ->
  exists rest, relay produced = (delivered st ++ rest)%list.
Proof.
  intros Hsteps.
  destruct (bridge_invariant_steps produced _ _ Hsteps
              (bridge_invariant_start produced)) as [Hdel Hprod].
  rewrite Hprod. rewrite relay_no_sentinel by assumption. eauto.
Qed.

Section BridgeTheorems.

Context {Model Store : Type} (w : World Model Store).

(** What the worker thread enqueues: the engine's step events, one terminal
    event, and the sentinel last. *)
Lemma run_pipeline_shape (request : DebateRequest) (model_name : string) :
  let run := stream_debate w (req_documents request) (req_query request)
                           model_name (req_top_k request) (req_rounds request) in
  exists steps terminal,
    run_pipeline w request model_name
    = (map EvStep steps ++ [terminal; EvSentinel])%list
    /\ match snd run with
       | inr _ =>
           (exists final_answer stats,
              terminal = EvDone final_answer stats (req_query request))
           /\ yielded (fst run) = (map EvStep steps ++ [terminal])%list
       | inl exc =>
           terminal = EvError ("Pipeline error: " ++ str_exn exc)
           /\ yielded (fst run) = map EvStep steps
       end.
Proof.
  intros run.
  pose proof (stream_debate_with_closes w compact_default_limit
                (req_documents request) (req_query request) model_name
                (req_top_k request) (req_rounds request)) as Hshape.
  unfold closes_with_done in Hshape. unfold run_pipeline, run, stream_debate.
  destruct (stream_debate_with w compact_default_limit (req_documents request)
              (req_query request) model_name (req_top_k request)
              (req_rounds request)) as [trace [exc|u]]; simpl in *.
  - exists (step_payloads (yielded trace)),
           (EvError ("Pipeline error: " ++ str_exn exc)).
    rewrite <- (all_steps_are_payloads _ Hshape). auto.
  - destruct Hshape as (front & fa & st & Hy & Hfront).
    exists (step_payloads front), (EvDone fa st (req_query request)).
    rewrite <- (all_steps_are_payloads _ Hfront), Hy, <- app_assoc.
    split; [reflexivity|]. split; [eauto|reflexivity].
Qed.

Lemma sent_events_sends (l : list event) (rest : list ws_action) :
  sent_events (map WsSend l ++ rest) = (l ++ sent_events rest)%list.
Proof.
  unfold sent_events. rewrite flat_map_app. f_equal.
  induction l as [|e l IH]; simpl; [reflexivity|]. now rewrite IH.
Qed.

(** What the handler sends for a valid payload. *)
Lemma debate_websocket_valid (payload : Payload) (request : DebateRequest) :
  validate_request payload = inr request ->
  sent_events (debate_websocket w (Received payload))
  = ([EvReady; EvReady]
     ++ relay (run_pipeline w request (model_or_default (req_model request))))%list.
Proof.
  intros Hvalid. unfold debate_websocket. rewrite Hvalid. cbv zeta.
  change (sent_events (WsAccept :: ?l)) with (sent_events l).
  rewrite (sent_events_sends [EvReady; EvReady]), sent_events_sends.
  simpl sent_events. now rewrite app_nil_r.
Qed.

Lemma map_step_no_sentinel (steps : list DebateStep) :
  no_sentinel (map EvStep steps).
Proof. unfold no_sentinel. induction steps; simpl; auto. Qed.

End BridgeTheorems.

(** C3. In any world and for any request, the worker thread enqueues the
    engine's step events in production order, then one terminal event (the
    engine's done event on normal completion, the synthesized error event
    when the engine raised), then the sentinel, which comes last and so
    after the error event.  Whatever the interleaving of the worker thread
    and the relay loop: some schedule lets the loop finish; when the loop
    has finished, the client has received exactly the step events followed
    by that one terminal event; at every moment the client has received a
    prefix of this sequence; and the sentinel is never delivered.  The
    handler for a valid payload sends the two ready events and then this
    sequence. *)
Theorem stream_closes_with_one_terminal_event {Model Store : Type}
    (w : World Model Store) (request : DebateRequest) (model_name : string) :
  let run := stream_debate w (req_documents request) (req_query request)
                           model_name (req_top_k request) (req_rounds request) in
  let produced := run_pipeline w request model_name in
  exists steps terminal,
    produced = (map EvStep steps ++ [terminal; EvSentinel])%list
    /\ is_terminal terminal = true
    /\ match snd run with
       | inr _ =>
           (exists final_answer stats,
              terminal = EvDone final_answer stats (req_query request))
           /\ yielded (fst run) = (map EvStep steps ++ [terminal])%list
       | inl exc =>
           terminal = EvError ("Pipeline error: " ++ str_exn exc)
           /\ yielded (fst run) = map EvStep steps
       end
    /\ relay produced = (map EvStep steps ++ [terminal])%list
    /\ (exists final,
          bridge_steps (bridge_start produced) final /\ relaying final = false)
    /\ (forall final,
          bridge_steps (bridge_start produced) final ->
          relaying final = false ->
          delivered final = (map EvStep steps ++ [terminal])%list)
    /\ (forall st,
          bridge_steps (bridge_start produced) st ->
          ~ In EvSentinel (delivered st)
          /\ exists rest,
               (map EvStep steps ++ [terminal])%list = (delivered st ++ rest)%list)
    /\ (forall payload,
          validate_request payload = inr request ->
          model_name = model_or_default (req_model request) ->
          sent_events (debate_websocket w (Received payload))
          = ([EvReady; EvReady] ++ map EvStep steps ++ [terminal])%list).
Proof.
  intros run produced.
  destruct (run_pipeline_shape w request model_name)
    as (steps & terminal & Hprod & Hrun).
  fold run in Hrun. fold produced in Hprod.
  assert (Hterm : is_terminal terminal = true).
  { destruct (snd run).
    - destruct Hrun as [-> _]. reflexivity.
    - destruct Hrun as [(fa & st & ->) _]. reflexivity. }
  assert (Hclean : no_sentinel (map EvStep steps ++ [terminal])).
  { apply no_sentinel_app; [apply map_step_no_sentinel|].
    unfold no_sentinel. simpl. now destruct terminal. }
  assert (Hprod' : produced = ((map EvStep steps ++ [terminal]) ++ [EvSentinel])%list).
  { rewrite Hprod, <- app_assoc. reflexivity. }
  assert (Hrelay : relay produced = (map EvStep steps ++ [terminal])%list).
  { rewrite Hprod'. now apply relay_until_sentinel. }
  exists steps, terminal.
  split; [exact Hprod|]. split; [exact Hterm|]. split; [exact Hrun|].
  split; [exact Hrelay|]. split; [|split; [|split]].
  - rewrite Hprod'. now apply bridge_completes.
  - intros final Hsteps Hdone. rewrite <- Hrelay.
    exact (bridge_delivers_relay produced final Hsteps Hdone).
  - intros st Hsteps. split.
    + destruct (bridge_invariant_steps produced _ _ Hsteps
                  (bridge_invariant_start produced)) as [Hdel _].
      intros Hin. unfold no_sentinel in Hdel.
      rewrite forallb_forall in Hdel. specialize (Hdel _ Hin).
      simpl in Hdel. discriminate Hdel.
    + rewrite <- Hrelay. exact (bridge_delivers_prefix produced st Hsteps).
  - intros payload Hvalid Hmodel.
    rewrite (debate_websocket_valid w payload request Hvalid), <- Hmodel.
    fold produced. now rewrite Hrelay.
Qed.

Lemma stream_closes_with_one_terminal_event_witness :
  exists steps final,
    bridge_steps
      (bridge_start (run_pipeline Demo.failing_agent_world Demo.demo_request
                                  DEFAULT_MODEL))
      final
    /\ relaying final = false
    /\ delivered final
       = (map EvStep steps ++ [EvError "Pipeline error: service unavailable"])%list.
Proof.
  destruct (stream_closes_with_one_terminal_event Demo.failing_agent_world
              Demo.demo_request DEFAULT_MODEL)
    as (steps & terminal & _ & _ & Hrun & _ & (final & Hsteps & Hdone) & Hall & _).
  vm_compute in Hrun. destruct Hrun as [-> _].
  exists steps, final. split; [exact Hsteps|]. split; [exact Hdone|].
  exact (Hall final Hsteps Hdone).
Defined.

(** ** The readiness acknowledgment *)

Lemma relay_run_pipeline {Model Store : Type} (w : World Model Store)
    (request : DebateRequest) (model_name : string) :
  forallb (fun e => negb (is_ready e)) (relay (run_pipeline w request model_name))
  = true.
Proof.
  destruct (run_pipeline_shape w request model_name)
    as (steps & terminal & Hprod & Hrun).
  rewrite Hprod.
  replace (map EvStep steps ++ [terminal; EvSentinel])%list
    with ((map EvStep steps ++ [terminal]) ++ [EvSentinel])%list
    by (now rewrite <- app_assoc).
  assert (Hterm : is_ready terminal = false /\ is_sentinel terminal = false).
  { destruct (snd (stream_debate w _ _ _ _ _)).
    - destruct Hrun as [-> _]. split; reflexivity.
    - destruct Hrun as [(fa & st & ->) _]. split; reflexivity. }
  destruct Hterm as [Hready Hsent].
  rewrite relay_until_sentinel.
  - rewrite forallb_app. cbn [forallb]. rewrite Hready. cbn [negb andb].
    rewrite andb_true_r. clear.
    induction steps as [|st steps IH]; [reflexivity|exact IH].
  - apply no_sentinel_app; [apply map_step_no_sentinel|].
    unfold no_sentinel. simpl. now rewrite Hsent.
Qed.

(** C9, as the code has it: for every valid request payload the handler
    sends the readiness acknowledgment twice before the first pipeline
    event, and never again; the claim asks for exactly one. *)
Theorem ready_is_sent_twice {Model Store : Type} (w : World Model Store)
    (payload : Payload) (request : DebateRequest) :
  validate_request payload = inr request ->
  exists rest,
    sent_events (debate_websocket w (Received payload))
    = EvReady :: EvReady :: rest
    /\ forallb (fun e => negb (is_ready e)) rest = true
    /\ List.length (filter is_ready
                      (sent_events (debate_websocket w (Received payload))))
       = 2%nat.
Proof.
  intros Hvalid.
  exists (relay (run_pipeline w request (model_or_default (req_model request)))).
  rewrite (debate_websocket_valid w payload request Hvalid).
  pose proof (relay_run_pipeline w request (model_or_default (req_model request)))
    as Hrest.
  split; [reflexivity|]. split; [exact Hrest|].
  simpl. rewrite filter_none; [reflexivity|].
  intros e He. rewrite forallb_forall in Hrest. specialize (Hrest e He).
  now destruct (is_ready e).
Qed.

Lemma ready_is_sent_twice_witness :
  exists rest,
    sent_events (debate_websocket Demo.demo_world (Received Demo.demo_payload))
    = EvReady :: EvReady :: rest
    /\ forallb (fun e => negb (is_ready e)) rest = true
    /\ List.length
         (filter is_ready
            (sent_events (debate_websocket Demo.demo_world
                            (Received Demo.demo_payload))))
       = 2%nat.
Proof.
  apply (ready_is_sent_twice Demo.demo_world Demo.demo_payload Demo.demo_request).
  reflexivity.
Defined.

Lemma preview_limit_is_presentation_only_witness :
  let run1 := stream_debate_with Demo.demo_world 200 Demo.two_documents
                Demo.demo_query DEFAULT_MODEL 2 1 in
  let run2 := stream_debate_with Demo.demo_world 10 Demo.two_documents
                Demo.demo_query DEFAULT_MODEL 2 1 in
  (fst run1 <> fst run2
   /\ snd run1 = snd run2
   /\ agent_calls (fst run1) = agent_calls (fst run2)
   /\ hide_retrieval (fst run1) = hide_retrieval (fst run2))
  /\ In ("gpt-5-nano-2025-08-07",
         evidence_prompt Demo.demo_query "Lyon is a city in France.",
         Demo.demo_query)
        (agent_calls (fst run2)).
Proof.
  intros run1 run2. split.
  - split; [vm_compute; discriminate|].
    exact (proj1 preview_limit_is_presentation_only _ _ Demo.demo_world 200 10
             Demo.two_documents Demo.demo_query DEFAULT_MODEL 2 1).
  - refine (proj1 (proj2 preview_limit_is_presentation_only _ _
                     (Demo.demo_stubs (Some "sk-test")) 10 Demo.two_documents
                     Demo.demo_query DEFAULT_MODEL 2 1 _ _
                     {| page_content := "Lyon is a city in France.";
                        metadata := [("doc_id", PInt 2);
                                     ("source", PStr "user_doc_2")] |} _)).
    + reflexivity.
    + discriminate.
    + vm_compute. right. left. reflexivity.
Defined.

(* ================================================================== *)
(** * Further properties of the code *)
(* ================================================================== *)

(** ** Stripping and cleaning *)

Lemma lstrip_fixed (s : string) : lstrip (lstrip s) = lstrip s.
Proof.
  induction s as [|c s IH]; simpl; [reflexivity|].
  destruct (isspace c) eqn:Hc; [exact IH|]. simpl. now rewrite Hc.
Qed.

Lemma rstrip_fixed (s : string) : rstrip (rstrip s) = rstrip s.
Proof.
  induction s as [|c s IH]; simpl; [reflexivity|].
  destruct (rstrip s) as [|c' r] eqn:Hr.
  - destruct (isspace c) eqn:Hc; simpl; [reflexivity|]. now rewrite Hc.
  - simpl in *. destruct (rstrip r) as [|c'' r'] eqn:Hr'.
    + destruct (isspace c'); [discriminate IH|]. now rewrite IH.
    + now rewrite IH.
Qed.

(** Dropping leading whitespace from a string without trailing whitespace
    leaves it without trailing whitespace. *)
Lemma rstrip_lstrip (s : string) : rstrip s = s -> rstrip (lstrip s) = lstrip s.
Proof.
  induction s as [|c s IH]; simpl; [reflexivity|].
  intros H. destruct (isspace c) eqn:Hc.
  - apply IH. destruct (rstrip s) as [|c' r] eqn:Hr.
    + discriminate H.
    + now inversion H.
  - simpl. now rewrite Hc.
Qed.

Lemma strip_trimmed (s : string) : trimmed (strip s).
Proof.
  unfold trimmed, strip. split.
  - apply lstrip_fixed.
  - apply rstrip_lstrip, rstrip_fixed.
Qed.

Lemma trimmed_strip (s : string) : trimmed s -> strip s = s.
Proof. intros [Hl Hr]. unfold strip. now rewrite Hr. Qed.

Lemma strip_fixed (s : string) : strip (strip s) = strip s.
Proof. apply trimmed_strip, strip_trimmed. Qed.

(** X1. [clean_documents]: every cleaned document is non-empty and neither
    starts nor ends with whitespace; there are never more cleaned documents
    than entries; cleaning a cleaned list changes nothing; and the cleaned
    list keeps the order of the entries, each entry contributing its
    stripped form if that is not empty and nothing otherwise. *)
Theorem clean_documents_spec (documents front back : list string) (doc : string) :
  Forall (fun d => truthy d = true /\ trimmed d) (clean_documents documents)
  /\ (List.length (clean_documents documents) <= List.length documents)%nat
  /\ clean_documents (clean_documents documents) = clean_documents documents
  /\ clean_documents (front ++ doc :: back)
     = (clean_documents front
        ++ (if truthy (strip doc) then [strip doc] else [])
        ++ clean_documents back)%list.
Proof.
  assert (Hall : Forall (fun d => truthy d = true /\ trimmed d)
                        (clean_documents documents)).
  { unfold clean_documents. apply Forall_forall. intros d Hd.
    apply in_map_iff in Hd as (d0 & <- & Hd0).
    apply filter_In in Hd0 as [_ Htruthy]. split; [exact Htruthy|].
    apply strip_trimmed. }
  split; [exact Hall|]. split; [|split].
  - unfold clean_documents. rewrite length_map. apply filter_length_le.
  - induction Hall as [|d l [Hd Htrim] _ IH]; [reflexivity|].
    unfold clean_documents in *. simpl.
    rewrite (trimmed_strip d Htrim), Hd. simpl.
    rewrite (trimmed_strip d Htrim). now rewrite IH.
  - unfold clean_documents.
    rewrite filter_app, map_app. simpl.
    now destruct (truthy (strip doc)).
Qed.

(** ** Whitespace-collapsed text and [_compact] *)

Lemma string_app_assoc (a b c : string) : (a ++ b) ++ c = a ++ (b ++ c).
Proof. induction a as [|x a IH]; simpl; [reflexivity|]. now rewrite IH. Qed.

Lemma string_app_empty (a : string) : a ++ EmptyString = a.
Proof. induction a as [|x a IH]; simpl; [reflexivity|]. now rewrite IH. Qed.

Lemma truthy_app_char (cur : string) (c : ascii) :
  truthy (cur ++ String c EmptyString) = true.
Proof. now destruct cur. Qed.

Lemma join_cons (sep w : string) (ws : list string) :
  ws <> [] -> join sep (w :: ws) = w ++ sep ++ join sep ws.
Proof. destruct ws; [congruence|reflexivity]. Qed.

(** Splitting a collapsed string and joining the words with single spaces
    gives the string back. *)
Lemma join_split_from (s cur : string) :
  wellspaced (negb (truthy cur)) s = true ->
  join " " (split_from cur s) = cur ++ s.
Proof.
  revert cur. induction s as [|c s IH]; intros cur H; simpl in *.
  - destruct (truthy cur); [|discriminate H].
    simpl. now rewrite string_app_empty.
  - destruct (isspace c) eqn:Hc.
    + apply andb_prop in H as [H Hs]. apply andb_prop in H as [Heq Hcur].
      apply Ascii.eqb_eq in Heq. subst c.
      destruct (truthy cur); [|discriminate Hcur].
      specialize (IH EmptyString Hs). simpl in IH.
      rewrite join_cons.
      * now rewrite IH.
      * intros Hnil. rewrite Hnil in IH. simpl in IH. subst s.
        discriminate Hs.
    + rewrite IH.
      * now rewrite string_app_assoc.
      * now rewrite truthy_app_char.
Qed.

Lemma collapsed_join_split (s : string) :
  collapsed s -> join " " (split s) = s.
Proof.
  intros [->|H]; [reflexivity|].
  unfold split. now rewrite join_split_from.
Qed.

Lemma all_chars_app (p : ascii -> bool) (a b : string) :
  all_chars p (a ++ b) = all_chars p a && all_chars p b.
Proof.
  induction a as [|c a IH]; simpl; [reflexivity|].
  now rewrite IH, andb_assoc.
Qed.

(** [split] gives words: non-empty and free of whitespace. *)
Lemma split_from_words (s cur : string) :
  all_chars (fun c => negb (isspace c)) cur = true ->
  Forall (fun w => truthy w = true
                   /\ all_chars (fun c => negb (isspace c)) w = true)
         (split_from cur s).
Proof.
  revert cur. induction s as [|c s IH]; intros cur Hcur; simpl.
  - destruct (truthy cur) eqn:Ht; repeat constructor; assumption.
  - destruct (isspace c) eqn:Hc.
    + destruct (truthy cur) eqn:Ht.
      * constructor; [now split|]. now apply IH.
      * now apply IH.
    + apply IH. rewrite all_chars_app, Hcur. simpl. now rewrite Hc.
Qed.

Lemma wellspaced_word_app (w rest : string) (b : bool) :
  all_chars (fun c => negb (isspace c)) w = true ->
  wellspaced b (w ++ rest)
  = if truthy w then wellspaced false rest else wellspaced b rest.
Proof.
  revert b. induction w as [|c w IH]; intros b Hw; simpl in *; [reflexivity|].
  apply andb_prop in Hw as [Hc Hw].
  destruct (isspace c); [discriminate Hc|].
  rewrite (IH false Hw). now destruct (truthy w).
Qed.

Lemma join_words_wellspaced (ws : list string) :
  Forall (fun w => truthy w = true
                   /\ all_chars (fun c => negb (isspace c)) w = true) ws ->
  ws <> [] ->
  wellspaced true (join " " ws) = true.
Proof.
  induction 1 as [|w ws [Ht Hw] Hws IH]; intros Hne; [congruence|].
  destruct ws as [|w2 ws].
  - simpl. rewrite <- (string_app_empty w).
    now rewrite wellspaced_word_app, Ht.
  - rewrite join_cons by discriminate.
    rewrite wellspaced_word_app, Ht by assumption.
    change (wellspaced false (" " ++ join " " (w2 :: ws)))
      with (wellspaced true (join " " (w2 :: ws))).
    apply IH. discriminate.
Qed.

Lemma collapsed_split (text : string) : collapsed (join " " (split text)).
Proof.
  unfold collapsed, split.
  destruct (split_from EmptyString text) as [|w ws] eqn:Hsplit.
  - now left.
  - right. apply join_words_wellspaced; [|discriminate].
    rewrite <- Hsplit. now apply split_from_words.
Qed.

(** Cutting a collapsed string, dropping the whitespace the cut left at
    the end and appending the ellipsis gives a collapsed string. *)
Lemma wellspaced_truncated (s : string) (k : nat) (b : bool) :
  wellspaced b s = true ->
  wellspaced b (rstrip (substring 0 k s) ++ "...") = true.
Proof.
  revert k b. induction s as [|c s IH]; intros k b H.
  - now destruct k.
  - destruct k as [|k]; [reflexivity|].
    change (substring 0 (S k) (String c s)) with (String c (substring 0 k s)).
    simpl in H. simpl rstrip.
    destruct (isspace c) eqn:Hc.
    + apply andb_prop in H as [H Hs]. apply andb_prop in H as [Heq Hb].
      specialize (IH k true Hs).
      destruct (rstrip (substring 0 k s)) as [|c' r] eqn:Hr.
      * reflexivity.
      * change (wellspaced b (String c (String c' r ++ "...")) = true).
        cbn [wellspaced]. rewrite Hc, Heq, Hb. exact IH.
    + specialize (IH k false H).
      destruct (rstrip (substring 0 k s)) as [|c' r] eqn:Hr.
      * change (wellspaced b (String c "...") = true).
        cbn [wellspaced]. now rewrite Hc.
      * change (wellspaced b (String c (String c' r ++ "...")) = true).
        cbn [wellspaced]. rewrite Hc. exact IH.
Qed.

Lemma compact_collapsed (text : string) (limit : Z) :
  collapsed (_compact text limit).
Proof.
  unfold _compact. set (cleaned := join " " (split text)).
  destruct (strlen cleaned <=? limit); [apply collapsed_split|].
  right. unfold slice_to.
  pose proof (collapsed_split text) as Hc. fold cleaned in Hc.
  destruct Hc as [Hempty|Hwell].
  - rewrite Hempty. simpl. now destruct (Z.to_nat _).
  - now apply wellspaced_truncated.
Qed.

Lemma compact_length (text : string) (limit : Z) :
  3 <= limit -> strlen (_compact text limit) <= limit.
Proof.
  intros Hlimit. unfold _compact.
  destruct (Z.leb_spec (strlen (join " " (split text))) limit) as [Hle|Hgt];
    [exact Hle|].
  unfold strlen. rewrite string_length_app.
  change (String.length "...") with 3%nat.
  pose proof (rstrip_length (slice_to (join " " (split text)) (limit - 3))).
  pose proof (slice_to_length (join " " (split text)) (limit - 3) ltac:(lia)).
  unfold strlen in *. lia.
Qed.

(** X2. [_compact] for any limit of at least 3: the result has at most
    [limit] characters.  Below 3 the slice bound [limit - 3] is negative and
    counts from the end, and the result can be longer than the limit and
    than the text itself. *)
Theorem compact_within_limit (text : string) (limit : Z) :
  (3 <= limit -> strlen (_compact text limit) <= limit)
  /\ _compact "abcdef" 2 = "abcde...".
Proof. split; [apply compact_length|reflexivity]. Qed.

Lemma compact_within_limit_witness :
  strlen (_compact "a  few words,   spread out" 10) <= 10.
Proof.
  apply (proj1 (compact_within_limit "a  few words,   spread out" 10)). lia.
Defined.

Lemma wellspaced_plain (s : string) (b : bool) :
  wellspaced b s = true -> all_chars plain_char s = true.
Proof.
  revert b. induction s as [|c s IH]; intros b H; simpl in *; [reflexivity|].
  unfold plain_char at 1. destruct (isspace c).
  - apply andb_prop in H as [H Hs]. apply andb_prop in H as [Heq _].
    rewrite Heq. simpl. now apply (IH true).
  - simpl. now apply (IH false).
Qed.

(** X3. The result of [_compact] is whitespace-collapsed for every limit:
    its only whitespace characters are plain spaces (so it holds no line
    break), and splitting it and joining the words with single spaces
    gives it back.  For a limit of at least 3, [_compact] applied to its
    own result changes nothing. *)
Theorem compact_is_collapsed (text : string) (limit : Z) :
  all_chars plain_char (_compact text limit) = true
  /\ join " " (split (_compact text limit)) = _compact text limit
  /\ (3 <= limit ->
      _compact (_compact text limit) limit = _compact text limit).
Proof.
  pose proof (compact_collapsed text limit) as Hc.
  split; [|split].
  - destruct Hc as [->|Hw]; [reflexivity|]. now apply (wellspaced_plain _ true).
  - now apply collapsed_join_split.
  - intros Hlimit. unfold _compact at 1.
    rewrite (collapsed_join_split _ Hc).
    pose proof (compact_length text limit Hlimit) as Hlen.
    destruct (Z.leb_spec (strlen (_compact text limit)) limit); [reflexivity|lia].
Qed.

Lemma compact_is_collapsed_witness :
  _compact (_compact "a  few words,   spread out" 10) 10
  = _compact "a  few words,   spread out" 10.
Proof.
  apply (proj2 (proj2 (compact_is_collapsed "a  few words,   spread out" 10))).
  lia.
Defined.

(** ** [_run_agent] *)

Lemma last_nonempty_content_from (events : list AgentEvent) (init : string) :
  Forall (fun ev => last_content_of ev = EmptyString) events ->
  fold_left (fun last_content ev =>
               let content := last_content_of ev in
               if truthy content then content else last_content)
            events init = init.
Proof.
  intros H. revert init. induction H as [|ev events Hev _ IH]; intros init;
    simpl; [reflexivity|].
  rewrite Hev. simpl. apply IH.
Qed.

Lemma last_nonempty_content_last (front back : list AgentEvent) (ev : AgentEvent) :
  truthy (last_content_of ev) = true ->
  Forall (fun ev' => last_content_of ev' = EmptyString) back ->
  last_nonempty_content (front ++ ev :: back) = last_content_of ev.
Proof.
  intros Hev Hback. unfold last_nonempty_content.
  rewrite fold_left_app. simpl. rewrite Hev.
  now apply last_nonempty_content_from.
Qed.

(** X4. [_run_agent] in any world makes exactly one agent call and yields
    nothing.  When the agent runtime raises, it raises the same exception.
    Otherwise it returns a string without leading or trailing whitespace:
    the stripped content of the last streamed value whose last message has
    a non-empty content, or the empty string when no streamed value has
    one. *)
Theorem run_agent_result {Model Store : Type} (w : World Model Store)
    (model : Model) (query system_prompt : string) :
  match agent_stream w model system_prompt query with
  | inl exc =>
      _run_agent w model query system_prompt
      = ([AgentCall model system_prompt query], inl exc)
  | inr events =>
      exists answer,
        _run_agent w model query system_prompt
        = ([AgentCall model system_prompt query], inr answer)
        /\ trimmed answer
        /\ (Forall (fun ev => last_content_of ev = EmptyString) events ->
            answer = EmptyString)
        /\ (forall front ev back,
              events = (front ++ ev :: back)%list ->
              truthy (last_content_of ev) = true ->
              Forall (fun ev' => last_content_of ev' = EmptyString) back ->
              answer = strip (last_content_of ev))
  end.
Proof.
  unfold _run_agent.
  destruct (agent_stream w model system_prompt query) as [exc|events];
    [reflexivity|].
  exists (strip (last_nonempty_content events)).
  split; [reflexivity|]. split; [apply strip_trimmed|]. split.
  - intros Hall. unfold last_nonempty_content.
    now rewrite last_nonempty_content_from.
  - intros front ev back -> Hev Hback.
    now rewrite last_nonempty_content_last.
Qed.

Lemma run_agent_result_witness :
  _run_agent Demo.demo_world "m" "q" "prompt"
  = ([AgentCall "m" "prompt" "q"], inr "Answer: 6.").
Proof.
  pose proof (run_agent_result Demo.demo_world "m" "q" "prompt") as H.
  simpl agent_stream in H.
  destruct H as (answer & Hrun & _ & _ & Hlast).
  rewrite Hrun. f_equal. f_equal.
  apply (Hlast [ {| first_message := "q"; later_messages := [] |} ]
               {| first_message := "q"; later_messages := [" Answer: 6. "] |}
               []).
  - reflexivity.
  - reflexivity.
  - constructor.
Defined.

(** ** More on the engine in any world *)

Section TraceLemmas.

Context {Model : Type}.

Lemma trace_all_ret {A : Type} (P : effect Model -> Prop) (a : A) :
  trace_all P (@ret Model A a).
Proof. constructor. Qed.

Lemma trace_all_call {A : Type} (P : effect Model -> Prop) (r : exn + A) :
  trace_all P (@call Model A r).
Proof. constructor. Qed.

Lemma trace_all_yield (P : effect Model -> Prop) (e : event) :
  P (Yield e) -> trace_all P (@yield Model e).
Proof. intros H. repeat constructor. exact H. Qed.

Lemma trace_all_bind {A B : Type} (P : effect Model -> Prop)
    (m : Gen Model A) (k : A -> Gen Model B) :
  trace_all P m ->
  (forall a, snd m = inr a -> trace_all P (k a)) ->
  trace_all P (bind m k).
Proof.
  unfold trace_all. intros Hm Hk.
  destruct (bind_cases m k) as [(e & _ & ->)|(a & Ha & ->)]; simpl.
  - exact Hm.
  - apply Forall_app. split; [exact Hm|]. now apply Hk.
Qed.

Lemma trace_all_for_each {A S : Type} (P : effect Model -> Prop)
    (xs : list A) (body : A -> S -> Gen Model S) :
  (forall x s, trace_all P (body x s)) ->
  forall s, trace_all P (for_each xs s body).
Proof.
  intros Hbody. induction xs as [|x xs IH]; intros s; simpl.
  - apply trace_all_ret.
  - apply trace_all_bind; [apply Hbody | intros s' _; apply IH].
Qed.

Lemma closes_with_bind {A : Type} (P : list event -> Prop)
    (m : Gen Model A) (k : A -> Gen Model unit) :
  (forall a, closes_with P (k a)) -> closes_with P (bind m k).
Proof.
  unfold closes_with. intros Hk.
  destruct (bind_cases m k) as [(e & _ & ->)|(a & _ & ->)]; simpl; [trivial|].
  specialize (Hk a). destruct (snd (k a)); [trivial|].
  destruct Hk as (front & tail & Hy & Htail).
  exists (yielded (fst m) ++ front)%list, tail.
  now rewrite yielded_app, Hy, app_assoc.
Qed.

End TraceLemmas.

Section AnyWorld.

Context {Model Store : Type} (w : World Model Store).

Lemma trace_all_run_agent (P : effect Model -> Prop) (model : Model)
    (query system_prompt : string) :
  P (AgentCall model system_prompt query) ->
  trace_all P (_run_agent w model query system_prompt).
Proof.
  intros H. unfold _run_agent. apply trace_all_bind.
  - repeat constructor. exact H.
  - intros events _. apply trace_all_ret.
Qed.

Ltac split_pairs :=
  repeat match goal with x : (_ * _)%type |- _ => destruct x end.

Ltac trace_all_tac :=
  repeat first
    [ apply trace_all_ret
    | apply trace_all_call
    | apply trace_all_yield; exact I
    | apply trace_all_run_agent
    | apply trace_all_for_each; intros; split_pairs; cbv beta iota zeta
    | apply trace_all_bind; [|intros; split_pairs; cbv beta iota zeta] ].

(** X5. In any world, every agent call of a run is made with the one chat
    model [init_chat_model] returned for the requested model name, with the
    user's query as the user message, and with a system prompt that holds
    the query. *)
Theorem agent_calls_share_model_and_query (limit : Z) (documents : list string)
    (query model_name : string) (top_k rounds : Z)
    (model : Model) (system_prompt user_message : string) :
  In (model, system_prompt, user_message)
     (agent_calls (fst (stream_debate_with w limit documents query model_name
                                           top_k rounds))) ->
  init_chat_model w model_name 0 = inr model
  /\ user_message = query
  /\ contains system_prompt query.
Proof.
  set (P := fun x : effect Model =>
              match x with
              | Yield _ => True
              | AgentCall m p q =>
                  init_chat_model w model_name 0 = inr m
                  /\ q = query /\ contains p query
              end).
  assert (Hall : trace_all P (stream_debate_with w limit documents query
                                model_name top_k rounds)).
  { unfold stream_debate_with.
    destruct (env_missing _); [constructor|].
    cbv zeta. destruct (clean_documents documents) as [|d ds]; [constructor|].
    apply trace_all_bind; [apply trace_all_call|].
    intros chat_model Hmodel. simpl in Hmodel.
    assert (Hprompt : forall p, contains p query ->
                                P (AgentCall chat_model p query)).
    { intros p Hp. repeat split; assumption. }
    trace_all_tac; apply Hprompt;
      unfold evidence_prompt, ambiguity_prompt, debate_prompt, summarizer_prompt;
      find_part. }
  intros Hin. unfold agent_calls in Hin.
  apply in_flat_map in Hin as (x & Hx & Hin).
  unfold trace_all in Hall. rewrite Forall_forall in Hall.
  specialize (Hall x Hx). destruct x as [e|m p q]; [destruct Hin|].
  destruct Hin as [Heq|[]]. inversion Heq; subst. exact Hall.
Qed.

End AnyWorld.

Section AnyWorldShape.

Context {Model Store : Type} (w : World Model Store).

Ltac split_pairs :=
  repeat match goal with x : (_ * _)%type |- _ => destruct x end.

(** X6. In any world, a run that ends normally ends with the synthesis
    step followed by the done event: the done event's final answer is the
    message of that step, its query is the caller's, and its stats report
    the number of non-blank documents, the requested model name and the
    requested number of rounds. *)
Theorem done_event_reports_the_run (limit : Z) (documents : list string)
    (query model_name : string) (top_k rounds : Z) :
  let run := stream_debate_with w limit documents query model_name top_k rounds in
  match snd run with
  | inl _ => True
  | inr _ =>
      exists front final_answer stats,
        yielded (fst run)
        = (front
           ++ [EvStep {| stage := "synthesis"; speaker := "Synthesizer";
                         message := final_answer; round := Some rounds;
                         doc_id := None |};
               EvDone final_answer stats query])%list
        /\ dict_get "documents" stats
           = Some (PInt (len (clean_documents documents)))
        /\ dict_get "model" stats = Some (PStr model_name)
        /\ dict_get "rounds" stats = Some (PInt rounds)
  end.
Proof.
  set (P := fun tail : list event =>
              exists final_answer stats,
                tail = [EvStep {| stage := "synthesis"; speaker := "Synthesizer";
                                  message := final_answer; round := Some rounds;
                                  doc_id := None |};
                        EvDone final_answer stats query]
                /\ dict_get "documents" stats
                   = Some (PInt (len (clean_documents documents)))
                /\ dict_get "model" stats = Some (PStr model_name)
                /\ dict_get "rounds" stats = Some (PInt rounds)).
  assert (H : closes_with P (stream_debate_with w limit documents query
                               model_name top_k rounds)).
  { unfold stream_debate_with.
    destruct (env_missing _); [exact I|].
    cbv zeta. destruct (clean_documents documents) as [|d ds] eqn:Hclean;
      [exact I|].
    do 14 (apply closes_with_bind; intros; split_pairs; cbv beta iota zeta).
    exists [].
    eexists. split; [reflexivity|].
    eexists; eexists. split; [reflexivity|].
    repeat split. }
  intros run. unfold closes_with in H. fold run in H.
  destruct (snd run); [exact I|].
  destruct H as (front & tail & Hy & fa & stats & -> & Hstats).
  exists front, fa, stats. split; [exact Hy|exact Hstats].
Qed.

Lemma stops_ret {A : Type} (a : A) : stops_at_failed_call w (@ret Model A a).
Proof. constructor. Qed.

Lemma stops_call {A : Type} (r : exn + A) :
  stops_at_failed_call w (@call Model A r).
Proof. unfold stops_at_failed_call. destruct r; simpl; [left|]; constructor. Qed.

Lemma stops_yield (e : event) : stops_at_failed_call w (@yield Model e).
Proof. repeat constructor. Qed.

Lemma stops_bind {A B : Type} (m : Gen Model A) (k : A -> Gen Model B) :
  stops_at_failed_call w m ->
  (forall a, stops_at_failed_call w (k a)) ->
  stops_at_failed_call w (bind m k).
Proof.
  unfold stops_at_failed_call. intros Hm Hk.
  destruct (bind_cases m k) as [(e & He & ->)|(a & Ha & ->)]; simpl.
  - now rewrite He in Hm.
  - rewrite Ha in Hm. specialize (Hk a).
    destruct (snd (k a)) as [e|b].
    + destruct Hk as [Hall|(t & model & p & q & Ht & Hall & Hfail)].
      * left. apply Forall_app. now split.
      * right. exists (fst m ++ t)%list, model, p, q.
        rewrite Ht, app_assoc. repeat split; [|assumption].
        apply Forall_app. now split.
    + apply Forall_app. now split.
Qed.

Lemma stops_for_each {A S : Type} (xs : list A) (body : A -> S -> Gen Model S) :
  (forall x s, stops_at_failed_call w (body x s)) ->
  forall s, stops_at_failed_call w (for_each xs s body).
Proof.
  intros Hbody. induction xs as [|x xs IH]; intros s; simpl.
  - apply stops_ret.
  - apply stops_bind; [apply Hbody | intros s'; apply IH].
Qed.

Lemma stops_run_agent (model : Model) (query system_prompt : string) :
  stops_at_failed_call w (_run_agent w model query system_prompt).
Proof.
  unfold _run_agent, stops_at_failed_call.
  destruct (agent_stream w model system_prompt query) as [e|events] eqn:Hcall;
    simpl.
  - right. exists [], model, system_prompt, query. repeat split; [constructor|].
    exact Hcall.
  - repeat constructor. now exists events.
Qed.

Ltac stops_tac :=
  repeat first
    [ apply stops_ret
    | apply stops_call
    | apply stops_yield
    | apply stops_run_agent
    | apply stops_for_each; intros; split_pairs; cbv beta iota zeta
    | apply stops_bind; [|intros; split_pairs; cbv beta iota zeta] ].

Lemma stream_debate_with_stops (limit : Z) (documents : list string)
    (query model_name : string) (top_k rounds : Z) :
  stops_at_failed_call w
    (stream_debate_with w limit documents query model_name top_k rounds).
Proof.
  unfold stream_debate_with.
  destruct (env_missing _); [left; constructor|].
  cbv zeta. destruct (clean_documents documents) as [|d ds];
    [left; constructor|].
  stops_tac.
Qed.

(** X7. In any world, a completion call that fails ends the run: it is the
    last thing the generator does (no retry, no further call and no further
    event), the generator raises the exception of that call, and the events
    yielded before it are step events only, so no done event is sent. *)
Theorem failed_call_ends_the_run (limit : Z) (documents : list string)
    (query model_name : string) (top_k rounds : Z)
    (before after : list (effect Model)) (model : Model)
    (system_prompt user_message : string) (exc : exn) :
  let run := stream_debate_with w limit documents query model_name top_k rounds in
  fst run = (before ++ AgentCall model system_prompt user_message :: after)%list ->
  agent_stream w model system_prompt user_message = inl exc ->
  after = []
  /\ snd run = inl exc
  /\ forallb is_step (yielded (fst run)) = true.
Proof.
  intros run Htrace Hfail.
  pose proof (stream_debate_with_stops limit documents query model_name
                top_k rounds) as Hstops.
  pose proof (stream_debate_with_closes w limit documents query model_name
                top_k rounds) as Hshape.
  unfold stops_at_failed_call in Hstops. unfold closes_with_done in Hshape.
  fold run in Hstops, Hshape.
  assert (Hnot : ~ Forall (call_succeeds w) (fst run)).
  { intros Hall. rewrite Htrace in Hall. apply Forall_app in Hall as [_ Hall].
    inversion Hall as [|? ? Hok _]; subst. destruct Hok as [events Hok]. congruence. }
  destruct (snd run) as [e|u]; [|contradiction].
  destruct Hstops as [Hall|(t & m & p & q & Ht & Hall & Hcall)]; [contradiction|].
  rewrite Htrace in Ht.
  destruct after as [|x after].
  - apply app_inj_tail in Ht as [_ Heq]. inversion Heq; subst.
    rewrite Hfail in Hcall. inversion Hcall; subst. auto.
  - exfalso.
    destruct (exists_last (l := x :: after) ltac:(discriminate)) as (rest & y & Hlast).
    rewrite Hlast in Ht.
    replace (before ++ AgentCall model system_prompt user_message :: rest ++ [y])%list
      with ((before ++ AgentCall model system_prompt user_message :: rest) ++ [y])%list
      in Ht by (rewrite <- app_assoc; reflexivity).
    apply app_inj_tail in Ht as [Heq _]. subst t.
    apply Forall_app in Hall as [_ Hall].
    inversion Hall as [|? ? Hok _]; subst. destruct Hok as [events Hok]. congruence.
Qed.

End AnyWorldShape.

Lemma failed_call_ends_the_run_witness :
  snd (stream_debate_with Demo.failing_agent_world 200 Demo.two_documents
         Demo.demo_query DEFAULT_MODEL 2 1)
  = inl (OtherException "APIError" "service unavailable").
Proof.
  set (run := stream_debate_with Demo.failing_agent_world 200 Demo.two_documents
                Demo.demo_query DEFAULT_MODEL 2 1).
  refine (proj1 (proj2 (failed_call_ends_the_run Demo.failing_agent_world 200
                          Demo.two_documents Demo.demo_query DEFAULT_MODEL 2 1
                          (firstn 4 (fst run)) [] DEFAULT_MODEL
                          (evidence_prompt Demo.demo_query
                             "Paris is the capital of France.")
                          Demo.demo_query _ _ _))).
  - vm_compute. reflexivity.
  - reflexivity.
Defined.

(** ** More on runs with stubs *)

Lemma enumerate_fst {A : Type} (start : Z) (l : list A) :
  map fst (enumerate start l) = range start (start + len l).
Proof.
  revert start. induction l as [|x l IH]; intros start.
  - unfold len. simpl. now rewrite range_empty by lia.
  - unfold len. simpl List.length. rewrite range_succ. simpl. f_equal.
    rewrite IH. unfold len. reflexivity.
Qed.

Lemma enumerate_snd {A : Type} (start : Z) (l : list A) :
  map snd (enumerate start l) = l.
Proof.
  revert start. induction l as [|x l IH]; intros start; simpl; [reflexivity|].
  now rewrite IH.
Qed.

Lemma length_flat_map_const {A B : Type} (f : A -> list B) (l : list A) (n : nat) :
  (forall x, List.length (f x) = n) ->
  List.length (flat_map f l) = (List.length l * n)%nat.
Proof.
  intros H. induction l as [|x l IH]; simpl; [reflexivity|].
  now rewrite length_app, H, IH.
Qed.

Section StubExtras.

Context {Model Store : Type} (s : Stubs Model Store).
Variables (documents : list string) (query model_name : string) (top_k : Z).

(** The steps that carry the answers of a round, as a list. *)
Lemma stub_steps_answer_steps (limit rounds : Z) (r : nat) :
  (r <= Z.to_nat rounds)%nat ->
  filter (carries_answer (Z.of_nat r))
         (stub_steps s documents query model_name top_k limit rounds)
  = match r with
    | O => map (evidence_step s query model_name)
               (enumerate 1 (stub_retrieved s documents query top_k))
    | S r' => map (debate_step s query model_name (Z.of_nat r)
                     (spec_round_state s documents query model_name top_k r'))
                  (enumerate 1 (stub_retrieved s documents query top_k))
    end.
Proof.
  intros Hr.
  change (carries_answer (Z.of_nat r))
    with (fun st => in_round (Z.of_nat r) st
                    && (fun st' => has_stage "evidence" st' || has_stage "debate" st') st).
  destruct r as [|r].
  - change (Z.of_nat 0) with 0.
    rewrite stub_steps_in_round_zero by reflexivity.
    rewrite filter_app. rewrite filter_all.
    + apply app_nil_r.
    + intros st Hst. apply evidence_steps_spec in Hst as [H _].
      unfold has_stage. now rewrite H.
  - rewrite stub_steps_in_round by (reflexivity || lia).
    unfold round_steps. rewrite filter_app.
    replace (S r - 1)%nat with r by lia.
    rewrite filter_all.
    + apply app_nil_r.
    + intros st Hst. apply debate_steps_spec in Hst as [H _].
      unfold has_stage. now rewrite H.
Qed.

(** X8. With stubs, in a run that passes validation every round keeps the
    retrieval order: the steps that carry the answers of round [r] (the
    evidence steps for round 0, the debate steps after) name, in order, the
    document ids of the retrieved chunks, and their speakers are numbered
    from 1 ("Doc Agent i" in round 0, "Debater i" after). *)
Theorem rounds_keep_retrieval_order (rounds : Z) (r : nat) :
  env_missing (stub_getenv s "OPENAI_API_KEY") = false ->
  clean_documents documents <> [] ->
  (r <= Z.to_nat rounds)%nat ->
  let retrieved := stub_retrieved s documents query top_k in
  let steps := filter (carries_answer (Z.of_nat r))
                 (step_payloads
                    (yielded
                       (fst (stream_debate (world_of_stubs s) documents query
                                           model_name top_k rounds)))) in
  map doc_id steps = map (fun doc => dict_get "doc_id" (metadata doc)) retrieved
  /\ map speaker steps
     = map (fun i => (match r with O => "Doc Agent " | S _ => "Debater " end)
                     ++ str_of_Z i)
           (range 1 (1 + len retrieved)).
Proof.
  intros Henv Hclean Hr retrieved steps. unfold steps, stream_debate.
  rewrite stream_debate_with_stub_run by assumption. cbn [fst].
  rewrite step_payloads_stub_trace, stub_steps_answer_steps by assumption.
  fold retrieved. rewrite <- enumerate_fst.
  rewrite <- (map_enumerate_snd (fun doc => dict_get "doc_id" (metadata doc))
                1 retrieved).
  destruct r as [|r]; rewrite !map_map; split; apply map_ext; now intros [i doc].
Qed.

End StubExtras.

Lemma rounds_keep_retrieval_order_witness :
  map doc_id
      (filter (carries_answer (Z.of_nat 1))
         (step_payloads
            (yielded
               (fst (stream_debate (world_of_stubs (Demo.demo_stubs (Some "sk-test")))
                       Demo.two_documents Demo.demo_query DEFAULT_MODEL 2 1)))))
  = [Some (PInt 1); Some (PInt 2)].
Proof.
  apply (proj1 (rounds_keep_retrieval_order (Demo.demo_stubs (Some "sk-test"))
                  Demo.two_documents Demo.demo_query DEFAULT_MODEL 2 1 1
                  eq_refl ltac:(discriminate) ltac:(reflexivity))).
Defined.

(** X9. With stubs, a run that passes validation makes one completion call
    per retrieved chunk and one ambiguity check in round 0 and in every
    debate round, and one synthesis call: [(R + 1) * (rounds + 1) + 1]
    calls for [R] retrieved chunks, a negative [rounds] counting as 0. *)
Theorem agent_call_count {Model Store : Type} (s : Stubs Model Store)
    (documents : list string) (query model_name : string) (top_k rounds : Z) :
  env_missing (stub_getenv s "OPENAI_API_KEY") = false ->
  clean_documents documents <> [] ->
  len (agent_calls (fst (stream_debate (world_of_stubs s) documents query
                                       model_name top_k rounds)))
  = (len (stub_retrieved s documents query top_k) + 1) * (Z.max 0 rounds + 1) + 1.
Proof.
  intros Henv Hclean. unfold stream_debate.
  rewrite stream_debate_with_stub_run by assumption. cbn [fst].
  rewrite calls_stub_trace. unfold stub_calls, len.
  rewrite !length_app.
  rewrite (length_flat_map_const _ _
             (S (List.length (stub_retrieved s documents query top_k)))).
  - unfold spec_evidence_calls. rewrite length_map, length_seq.
    simpl List.length. nia.
  - intros r. unfold spec_round_calls, spec_debate_calls.
    rewrite length_app, length_map. simpl. lia.
Qed.

Lemma agent_call_count_witness :
  len (agent_calls
         (fst (stream_debate (world_of_stubs (Demo.demo_stubs (Some "sk-test")))
                 Demo.two_documents Demo.demo_query DEFAULT_MODEL 2 1)))
  = 7.
Proof.
  rewrite (agent_call_count (Demo.demo_stubs (Some "sk-test"))
             Demo.two_documents Demo.demo_query DEFAULT_MODEL 2 1).
  - reflexivity.
  - reflexivity.
  - discriminate.
Defined.

(** X10. With stubs, a run that passes validation with [rounds] at most 0
    (the engine itself sets no lower bound) holds no debate round: after
    the evidence steps and the first ambiguity step comes the synthesis
    step, tagged with [rounds] as given, and the synthesis call is made on
    the round-0 answers. *)
Theorem no_debate_without_rounds {Model Store : Type} (s : Stubs Model Store)
    (documents : list string) (query model_name : string) (top_k rounds : Z) :
  env_missing (stub_getenv s "OPENAI_API_KEY") = false ->
  clean_documents documents <> [] ->
  rounds <= 0 ->
  let run := stream_debate (world_of_stubs s) documents query model_name
                           top_k rounds in
  let steps := step_payloads (yielded (fst run)) in
  let round_zero := spec_round_state s documents query model_name top_k 0 in
  snd run = inr tt
  /\ map stage steps
     = (["setup"; "indexing"; "setup"; "retrieval"]
        ++ repeat "evidence"
             (List.length (stub_retrieved s documents query top_k))
        ++ ["ambiguity"; "synthesis"])%list
  /\ List.last (map round steps) None = Some rounds
  /\ List.last (agent_calls (fst run)) (stub_chat_model s model_name, query, query)
     = (stub_chat_model s model_name,
        summarizer_prompt query (join nl (answers round_zero)), query).
Proof.
  intros Henv Hclean Hrounds run steps round_zero. unfold steps, run, stream_debate.
  rewrite stream_debate_with_stub_run by assumption. cbn [fst snd].
  rewrite step_payloads_stub_trace, calls_stub_trace.
  assert (Hzero : Z.to_nat rounds = 0%nat) by lia.
  split; [reflexivity|]. split; [|split].
  - rewrite stub_steps_stages, Hzero. reflexivity.
  - unfold stub_steps. rewrite !map_app. cbn [map synthesis_step round].
    rewrite !app_assoc. apply last_last.
  - unfold stub_calls. rewrite !app_assoc, last_last.
    unfold spec_synthesis_call. now rewrite Hzero.
Qed.

Lemma no_debate_without_rounds_witness :
  map stage
      (step_payloads
         (yielded
            (fst (stream_debate (world_of_stubs (Demo.demo_stubs (Some "sk-test")))
                    Demo.two_documents Demo.demo_query DEFAULT_MODEL 2 0))))
  = ["setup"; "indexing"; "setup"; "retrieval"; "evidence"; "evidence";
     "ambiguity"; "synthesis"].
Proof.
  apply (proj1 (proj2 (no_debate_without_rounds
                         (Demo.demo_stubs (Some "sk-test")) Demo.two_documents
                         Demo.demo_query DEFAULT_MODEL 2 0
                         eq_refl ltac:(discriminate) ltac:(lia)))).
Defined.

(** ** Request validation and the two handlers *)

Lemma validate_request_bounds (p : Payload) (request : DebateRequest) :
  validate_request p = inr request ->
  1 <= req_rounds request <= 4.
Proof.
  unfold validate_request.
  set (rounds := match payload_rounds p with Some r => r | None => 2 end).
  destruct (1 <=? strlen (payload_query p));
    destruct (1 <=? len (payload_documents p));
    destruct ((1 <=? match payload_top_k p with Some k => k | None => 6 end)
              && (match payload_top_k p with Some k => k | None => 6 end <=? 20));
    destruct ((1 <=? rounds) && (rounds <=? 4)) eqn:Hr;
    simpl; intros H; try discriminate H.
  inversion H; subst. simpl.
  apply andb_prop in Hr as [H1 H2]. apply Z.leb_le in H1, H2. lia.
Qed.

(** X11. The request model accepts a payload exactly when the query and
    the document list are not empty, [top_k] (6 when absent) lies in 1..20
    and [rounds] (2 when absent) lies in 1..4; the request then carries the
    payload's fields with these defaults filled in.  A rejected payload is
    reported with at least one field. *)
Theorem validate_request_spec (p : Payload) (request : DebateRequest)
    (errors : list string) :
  let top_k := match payload_top_k p with Some k => k | None => 6 end in
  let rounds := match payload_rounds p with Some r => r | None => 2 end in
  (validate_request p = inr request
   <-> (request = {| req_query := payload_query p;
                     req_documents := payload_documents p;
                     req_model := payload_model p;
                     req_top_k := top_k;
                     req_rounds := rounds |}
        /\ payload_query p <> EmptyString
        /\ payload_documents p <> []
        /\ 1 <= top_k <= 20
        /\ 1 <= rounds <= 4))
  /\ (validate_request p = inl errors -> errors <> []).
Proof.
  intros top_k rounds. unfold validate_request. fold top_k rounds.
  assert (Hq : (1 <=? strlen (payload_query p)) = true
               <-> payload_query p <> EmptyString).
  { unfold strlen. destruct (payload_query p); simpl.
    - split; [discriminate|congruence].
    - split; [discriminate|]. intros _. apply Z.leb_le. lia. }
  assert (Hd : (1 <=? len (payload_documents p)) = true
               <-> payload_documents p <> []).
  { unfold len. destruct (payload_documents p); simpl.
    - split; [discriminate|congruence].
    - split; [discriminate|]. intros _. apply Z.leb_le. lia. }
  assert (Hk : ((1 <=? top_k) && (top_k <=? 20)) = true <-> 1 <= top_k <= 20).
  { rewrite andb_true_iff, !Z.leb_le. tauto. }
  assert (Hr : ((1 <=? rounds) && (rounds <=? 4)) = true <-> 1 <= rounds <= 4).
  { rewrite andb_true_iff, !Z.leb_le. tauto. }
  destruct (1 <=? strlen (payload_query p));
    destruct (1 <=? len (payload_documents p));
    destruct ((1 <=? top_k) && (top_k <=? 20));
    destruct ((1 <=? rounds) && (rounds <=? 4));
    simpl;
    (split;
     [ split;
       [ intros H; try discriminate H; inversion H; subst;
         repeat split; solve [tauto | apply Hk; reflexivity | apply Hr; reflexivity]
       | intros (-> & H1 & H2 & H3 & H4);
         first [ reflexivity | exfalso; solve [intuition discriminate] ] ]
     | intros H; try discriminate H; inversion H; subst; discriminate ]).
Qed.

Lemma validate_request_spec_witness :
  validate_request Demo.demo_payload = inr Demo.demo_request.
Proof.
  apply (proj1 (validate_request_spec Demo.demo_payload Demo.demo_request [])).
  repeat split; try discriminate; simpl; lia.
Defined.

Section Handlers.

Context {Model Store : Type} (w : World Model Store).

(** [run_debate] by cases on how the generator ends. *)
Lemma run_debate_cases (documents : list string) (query model_name : string)
    (top_k rounds : Z) :
  let run := stream_debate w documents query model_name top_k rounds in
  (exists exc,
     snd run = inl exc
     /\ forallb is_step (yielded (fst run)) = true
     /\ run_debate w documents query model_name top_k rounds = inl exc)
  \/ (exists front final_answer stats,
        snd run = inr tt
        /\ yielded (fst run) = (front ++ [EvDone final_answer stats query])%list
        /\ forallb is_step front = true
        /\ run_debate w documents query model_name top_k rounds
           = inr {| result_query := query;
                    result_steps := step_payloads front;
                    result_final_answer := final_answer;
                    result_stats := stats |}).
Proof.
  intros run.
  pose proof (stream_debate_with_closes w compact_default_limit documents query
                model_name top_k rounds) as Hshape.
  unfold closes_with_done in Hshape.
  unfold run_debate, run, stream_debate. clear run.
  destruct (stream_debate_with w compact_default_limit documents query
              model_name top_k rounds) as [trace [exc|[]]]; simpl in *.
  - left. exists exc. repeat split; [assumption|].
    now destruct (fold_left collect (yielded trace) ([], EmptyString, []))
      as [[? ?] ?].
  - right. destruct Hshape as (front & fa & st & Hy & Hfront).
    exists front, fa, st. repeat split; try assumption.
    now rewrite Hy, fold_left_app, (collect_steps front [] _ _ Hfront).
Qed.

(** What the relay loop forwards of what [run_pipeline] enqueued. *)
Lemma relay_run_pipeline_events (request : DebateRequest) (model_name : string) :
  let run := stream_debate w (req_documents request) (req_query request)
                           model_name (req_top_k request) (req_rounds request) in
  relay (run_pipeline w request model_name)
  = (yielded (fst run)
     ++ match snd run with
        | inl exc => [EvError ("Pipeline error: " ++ str_exn exc)]
        | inr _ => []
        end)%list.
Proof.
  intros run.
  pose proof (stream_debate_with_closes w compact_default_limit
                (req_documents request) (req_query request) model_name
                (req_top_k request) (req_rounds request)) as Hshape.
  unfold closes_with_done in Hshape.
  unfold run_pipeline, run, stream_debate. clear run.
  destruct (stream_debate_with w compact_default_limit (req_documents request)
              (req_query request) model_name (req_top_k request)
              (req_rounds request)) as [trace [exc|u]]; cbn [fst snd] in *.
  - rewrite app_assoc. apply relay_until_sentinel.
    apply no_sentinel_app; [now apply steps_no_sentinel|reflexivity].
  - destruct Hshape as (front & fa & st & Hy & Hfront).
    cbn [app]. rewrite app_nil_r. apply relay_until_sentinel.
    rewrite Hy. apply no_sentinel_app; [now apply steps_no_sentinel|reflexivity].
Qed.

(** X12. The HTTP handler in any world: it answers 500 with the credential
    message when the credential is missing, whatever the request holds;
    400 when the credential is present and every document is blank (the
    request model lets such documents through); and in general 400 for a
    [ValueError] and 500 for a [RuntimeError] of the engine, with the
    exception's message as detail, while any other exception passes
    through the handler and a normal end returns the result of
    [run_debate]. *)
Theorem debate_endpoint_responses (payload : DebateRequest) :
  let model_name := model_or_default (req_model payload) in
  let run := stream_debate w (req_documents payload) (req_query payload)
                           model_name (req_top_k payload) (req_rounds payload) in
  (env_missing (getenv w "OPENAI_API_KEY") = true ->
   debate_endpoint w payload
   = HTTPException 500 "OPENAI_API_KEY is not set in the environment.")
  /\ (env_missing (getenv w "OPENAI_API_KEY") = false ->
      Forall (fun doc => truthy (strip doc) = false) (req_documents payload) ->
      debate_endpoint w payload
      = HTTPException 400 "At least one non-empty document is required.")
  /\ match snd run with
     | inl (ValueError msg) => debate_endpoint w payload = HTTPException 400 msg
     | inl (RuntimeError msg) => debate_endpoint w payload = HTTPException 500 msg
     | inl (OtherException cls msg) =>
         debate_endpoint w payload = Propagated (OtherException cls msg)
     | inr _ =>
         exists result,
           debate_endpoint w payload = Returned result
           /\ run_debate w (req_documents payload) (req_query payload)
                         model_name (req_top_k payload) (req_rounds payload)
              = inr result
     end.
Proof.
  intros model_name run.
  assert (Hgeneral :
    match snd run with
    | inl (ValueError msg) => debate_endpoint w payload = HTTPException 400 msg
    | inl (RuntimeError msg) => debate_endpoint w payload = HTTPException 500 msg
    | inl (OtherException cls msg) =>
        debate_endpoint w payload = Propagated (OtherException cls msg)
    | inr _ =>
        exists result,
          debate_endpoint w payload = Returned result
          /\ run_debate w (req_documents payload) (req_query payload)
                        model_name (req_top_k payload) (req_rounds payload)
             = inr result
    end).
  { unfold debate_endpoint. fold model_name.
    destruct (run_debate_cases (req_documents payload) (req_query payload)
                model_name (req_top_k payload) (req_rounds payload))
      as [(exc & Hout & _ & Hrun)|(front & fa & st & Hout & _ & _ & Hrun)];
      fold run in Hout; rewrite Hout, Hrun.
    - now destruct exc.
    - eexists. split; reflexivity. }
  split; [|split; [|exact Hgeneral]].
  - intros Henv.
    assert (Hrun : run = ([], inl (RuntimeError
                                     "OPENAI_API_KEY is not set in the environment."))).
    { unfold run, stream_debate, stream_debate_with. now rewrite Henv. }
    now rewrite Hrun in Hgeneral.
  - intros Henv Hblank. apply clean_documents_empty in Hblank.
    assert (Hrun : run = ([], inl (ValueError
                                     "At least one non-empty document is required."))).
    { unfold run, stream_debate, stream_debate_with. now rewrite Henv, Hblank. }
    now rewrite Hrun in Hgeneral.
Qed.

(** X13. The two handlers agree, in any world and for any valid payload:
    when the HTTP handler returns a result, the websocket handler sends the
    two ready events, the result's steps as step events in order, and a
    done event with the result's final answer, stats and query; when the
    HTTP handler answers with an error or lets an exception through, the
    websocket handler ends its events with an error event whose detail is
    ["Pipeline error: "] followed by the same message, after the ready
    events and step events only. *)
Theorem handlers_agree (payload : Payload) (request : DebateRequest) :
  validate_request payload = inr request ->
  let sent := sent_events (debate_websocket w (Received payload)) in
  match debate_endpoint w request with
  | Returned result =>
      sent = ([EvReady; EvReady]
              ++ map EvStep (result_steps result)
              ++ [EvDone (result_final_answer result) (result_stats result)
                         (result_query result)])%list
      /\ result_query result = req_query request
  | HTTPException _ detail =>
      exists steps,
        sent = ([EvReady; EvReady] ++ map EvStep steps
                ++ [EvError ("Pipeline error: " ++ detail)])%list
  | Propagated exc =>
      exists steps,
        sent = ([EvReady; EvReady] ++ map EvStep steps
                ++ [EvError ("Pipeline error: " ++ str_exn exc)])%list
  end.
Proof.
  intros Hvalid sent. unfold sent.
  rewrite (debate_websocket_valid w payload request Hvalid).
  rewrite relay_run_pipeline_events. unfold debate_endpoint.
  set (model_name := model_or_default (req_model request)).
  destruct (run_debate_cases (req_documents request) (req_query request)
              model_name (req_top_k request) (req_rounds request))
    as [(exc & Hout & Hsteps & Hrun)|(front & fa & st & Hout & Hy & Hfront & Hrun)];
    rewrite Hout, Hrun.
  - rewrite (all_steps_are_payloads _ Hsteps).
    destruct exc; eexists; reflexivity.
  - simpl. rewrite Hy, app_nil_r, <- (all_steps_are_payloads _ Hfront).
    split; reflexivity.
Qed.

End Handlers.

Lemma debate_endpoint_responses_witness :
  debate_endpoint Demo.no_key_world Demo.demo_request
  = HTTPException 500 "OPENAI_API_KEY is not set in the environment."
  /\ debate_endpoint Demo.demo_world
       {| req_query := "q"; req_documents := ["  "; ""]; req_model := None;
          req_top_k := 6; req_rounds := 2 |}
     = HTTPException 400 "At least one non-empty document is required.".
Proof.
  split.
  - apply (proj1 (debate_endpoint_responses Demo.no_key_world Demo.demo_request)).
    reflexivity.
  - apply (proj1 (proj2 (debate_endpoint_responses Demo.demo_world _))).
    + reflexivity.
    + repeat constructor.
Defined.

Lemma handlers_agree_witness :
  exists steps,
    sent_events (debate_websocket Demo.failing_agent_world
                   (Received Demo.demo_payload))
    = ([EvReady; EvReady] ++ map EvStep steps
       ++ [EvError "Pipeline error: service unavailable"])%list.
Proof.
  exact (handlers_agree Demo.failing_agent_world Demo.demo_payload
           Demo.demo_request eq_refl).
Defined.

(** X14. Every websocket session, in any world and whatever arrives: the
    handler accepts first, then sends events that end with exactly one
    terminal event, and closes the socket at most once and only after the
    last event.  It sends ready events only for a valid payload, and it
    leaves the socket unclosed exactly when the payload is invalid. *)
Theorem websocket_session_shape {Model Store : Type} (w : World Model Store)
    (inc : incoming) :
  exists front terminal closing,
    debate_websocket w inc
    = (WsAccept :: map WsSend (front ++ [terminal]) ++ closing)%list
    /\ is_terminal terminal = true
    /\ forallb (fun e => negb (is_terminal e)) front = true
    /\ (closing = [WsClose] \/ closing = [])
    /\ (closing = []
        <-> exists payload errors,
              inc = Received payload /\ validate_request payload = inl errors)
    /\ (In EvReady front
        <-> exists payload request,
              inc = Received payload /\ validate_request payload = inr request).
Proof.
  destruct inc as [|payload].
  - exists [], (EvError "No payload received. Send JSON after connecting."),
           [WsClose].
    repeat split; try reflexivity; auto.
    + discriminate.
    + intros (p & e & H & _). discriminate H.
    + intros [].
    + intros (p & r & H & _). discriminate H.
  - destruct (validate_request payload) as [errors|request] eqn:Hvalid.
    + exists [], (EvValidationError errors), [].
      unfold debate_websocket. rewrite Hvalid.
      repeat split; try reflexivity; auto.
      * intros _. now exists payload, errors.
      * intros [].
      * intros (p & r & H & Hr). inversion H; subst. congruence.
    + destruct (run_pipeline_shape w request (model_or_default (req_model request)))
        as (steps & terminal & Hprod & Hrun).
      assert (Hterm : is_terminal terminal = true /\ is_sentinel terminal = false).
      { destruct (snd (stream_debate w _ _ _ _ _)).
        - destruct Hrun as [-> _]. split; reflexivity.
        - destruct Hrun as [(fa & st & ->) _]. split; reflexivity. }
      destruct Hterm as [Hterm Hsent].
      assert (Hrelay : relay (run_pipeline w request
                                (model_or_default (req_model request)))
                       = (map EvStep steps ++ [terminal])%list).
      { rewrite Hprod.
        replace (map EvStep steps ++ [terminal; EvSentinel])%list
          with ((map EvStep steps ++ [terminal]) ++ [EvSentinel])%list
          by (now rewrite <- app_assoc).
        apply relay_until_sentinel.
        apply no_sentinel_app; [apply map_step_no_sentinel|].
        unfold no_sentinel. simpl. now rewrite Hsent. }
      exists ([EvReady; EvReady] ++ map EvStep steps)%list, terminal, [WsClose].
      unfold debate_websocket. rewrite Hvalid. cbv zeta. rewrite Hrelay.
      split.
      { rewrite <- app_assoc, !map_app. reflexivity. }
      split; [exact Hterm|]. split.
      { rewrite forallb_app. simpl. clear.
        induction steps as [|st steps IH]; [reflexivity|exact IH]. }
      split; [now left|]. split; split.
      * discriminate.
      * intros (p & e & H & He). inversion H; subst. congruence.
      * intros _. now exists payload, request.
      * intros _. now left.
Qed.

(** ** The bridge never blocks *)

Lemma bridge_steps_in_steps (n : nat) (st st' : bridge_state) :
  bridge_steps_in n st st' -> bridge_steps st st'.
Proof.
  induction 1 as [|n s1 s2 s3 Hstep _ IH]; [apply steps_refl|].
  now apply (steps_then s1 s2).
Qed.

Lemma bridge_step_measure (st st' : bridge_state) :
  bridge_step st st' -> (bridge_measure st' < bridge_measure st)%nat.
Proof.
  unfold bridge_measure.
  destruct 1; simpl; rewrite ?length_app; simpl; lia.
Qed.

Lemma bridge_steps_in_bound (n : nat) (st st' : bridge_state) :
  bridge_steps_in n st st' -> (n + bridge_measure st' <= bridge_measure st)%nat.
Proof.
  induction 1 as [|n s1 s2 s3 Hstep _ IH]; [lia|].
  apply bridge_step_measure in Hstep. lia.
Qed.

(** X15. The queue between the worker thread and the relay loop, for what
    [run_pipeline] enqueues in any world: under every interleaving, as long
    as the relay loop has not left, some step is possible (the loop never
    waits forever, because the sentinel always comes); a schedule that can
    go no further has the loop left and the worker done; and no schedule is
    longer than twice the number of enqueued events. *)
Theorem bridge_never_blocks {Model Store : Type} (w : World Model Store)
    (request : DebateRequest) (model_name : string) (st : bridge_state) (n : nat) :
  let produced := run_pipeline w request model_name in
  bridge_steps_in n (bridge_start produced) st ->
  (relaying st = true -> exists st', bridge_step st st')
  /\ ((forall st', ~ bridge_step st st') ->
      relaying st = false /\ to_put st = [] /\ delivered st = relay produced)
  /\ (n <= 2 * List.length produced)%nat.
Proof.
  intros produced Hsteps.
  pose proof (bridge_steps_in_bound _ _ _ Hsteps) as Hbound.
  apply bridge_steps_in_steps in Hsteps.
  destruct (bridge_invariant_steps produced _ _ Hsteps
              (bridge_invariant_start produced)) as [Hdel Hprod].
  assert (Hcan : relaying st = true -> exists st', bridge_step st st').
  { intros Hrel. destruct st as [p q d r]. simpl in *. subst r.
    destruct p as [|e p]; [|eexists; apply step_put].
    destruct q as [|e q].
    - exfalso. simpl in Hprod. rewrite app_nil_r in Hprod.
      destruct (run_pipeline_shape w request model_name)
        as (steps & terminal & Hshape & _).
      fold produced in Hshape. rewrite Hshape in Hprod.
      assert (Hin : In EvSentinel d).
      { rewrite <- Hprod. apply in_or_app. right. simpl. auto. }
      unfold no_sentinel in Hdel. rewrite forallb_forall in Hdel.
      specialize (Hdel _ Hin). discriminate Hdel.
    - destruct (is_sentinel e) eqn:He.
      + eexists. now apply step_break.
      + eexists. now apply step_send. }
  split; [exact Hcan|]. split.
  - intros Hstuck.
    destruct (relaying st) eqn:Hrel.
    + destruct (Hcan eq_refl) as [st' Hstep]. now apply Hstuck in Hstep.
    + assert (Hput : to_put st = []).
      { destruct st as [p q d r]. simpl in *.
        destruct p as [|e p]; [reflexivity|].
        exfalso. eapply Hstuck. apply step_put. }
      repeat split; [exact Hput|].
      rewrite Hprod. simpl. now rewrite relay_until_sentinel.
  - unfold bridge_measure in Hbound. simpl in Hbound. lia.
Qed.

Lemma bridge_never_blocks_witness :
  exists st', bridge_step
                (bridge_start (run_pipeline Demo.demo_world Demo.demo_request
                                            DEFAULT_MODEL))
                st'.
Proof.
  apply (proj1 (bridge_never_blocks Demo.demo_world Demo.demo_request
                  DEFAULT_MODEL _ 0 (steps_in_zero _))).
  reflexivity.
Defined.

(** X16. End to end with stubs: for a valid payload, the credential present
    and a document that is not blank, the HTTP handler returns a result
    whose steps number [6 + R + rounds * (R + 1)] for [R] retrieved chunks
    and the validated [rounds], whose final answer is the message of its
    last step, the synthesis step, and whose query is the request's. *)
Theorem endpoint_returns_full_debate {Model Store : Type} (s : Stubs Model Store)
    (payload : Payload) (request : DebateRequest) :
  validate_request payload = inr request ->
  env_missing (stub_getenv s "OPENAI_API_KEY") = false ->
  clean_documents (req_documents request) <> [] ->
  let model_name := model_or_default (req_model request) in
  let R := len (stub_retrieved s (req_documents request) (req_query request)
                               (req_top_k request)) in
  exists result,
    debate_endpoint (world_of_stubs s) request = Returned result
    /\ len (result_steps result) = 6 + R + req_rounds request * (R + 1)
    /\ 1 <= req_rounds request <= 4
    /\ option_map message (List.last (map Some (result_steps result)) None)
       = Some (result_final_answer result)
    /\ option_map stage (List.last (map Some (result_steps result)) None)
       = Some "synthesis"
    /\ result_query result = req_query request.
Proof.
  intros Hvalid Henv Hclean model_name R.
  assert (Hrounds : 1 <= req_rounds request <= 4).
  { apply (validate_request_bounds payload request Hvalid). }
  pose proof (stream_debate_with_stub_run s (req_documents request)
                (req_query request) model_name (req_top_k request)
                compact_default_limit (req_rounds request) Henv Hclean) as Hrun.
  unfold debate_endpoint, run_debate, stream_debate. fold model_name.
  rewrite Hrun, yielded_stub_trace, fold_left_app.
  rewrite (collect_steps (map EvStep _) [] EmptyString []).
  2:{ clear. induction (stub_steps _ _ _ _ _ _ _) as [|st l IH];
      [reflexivity|exact IH]. }
  rewrite step_payloads_steps. simpl fold_left. cbv beta iota.
  eexists. split; [reflexivity|]. cbn [result_steps result_final_answer result_query].
  split; [|split; [exact Hrounds|split; [|split; [|reflexivity]]]].
  - rewrite (stub_steps_length s (req_documents request) (req_query request)
               model_name (req_top_k request) compact_default_limit
               (req_rounds request)) by lia.
    fold R. lia.
  - unfold stub_steps. rewrite !app_assoc, map_app. cbn [map].
    now rewrite last_last.
  - unfold stub_steps. rewrite !app_assoc, map_app. cbn [map].
    now rewrite last_last.
Qed.

Lemma endpoint_returns_full_debate_witness :
  exists result,
    debate_endpoint (world_of_stubs (Demo.demo_stubs (Some "sk-test")))
                    Demo.demo_request = Returned result
    /\ len (result_steps result) = 11.
Proof.
  destruct (endpoint_returns_full_debate (Demo.demo_stubs (Some "sk-test"))
              Demo.demo_payload Demo.demo_request eq_refl eq_refl
              ltac:(discriminate))
    as (result & Hret & Hlen & _).
  exists result. split; [exact Hret|]. rewrite Hlen. reflexivity.
Defined.

Lemma agent_calls_share_model_and_query_witness :
  init_chat_model Demo.demo_world DEFAULT_MODEL 0 = inr DEFAULT_MODEL
  /\ Demo.demo_query = Demo.demo_query
  /\ contains (evidence_prompt Demo.demo_query "Paris is the capital of France.")
              Demo.demo_query.
Proof.
  apply (agent_calls_share_model_and_query Demo.demo_world 200
           Demo.two_documents Demo.demo_query DEFAULT_MODEL 2 1).
  vm_compute. left. reflexivity.
Defined.

(** ** The stage sequence in any world *)

Section AnyWorldStages.

Context {Model Store : Type} (w : World Model Store).

Lemma bind_inr_inv {A B : Type} (m : Gen Model A) (k : A -> Gen Model B)
    (t : list (effect Model)) (b : B) :
  bind m k = (t, inr b) ->
  exists t1 a t2, m = (t1, inr a) /\ k a = (t2, inr b) /\ t = (t1 ++ t2)%list.
Proof.
  destruct m as [t1 [e|a]]; simpl; [discriminate|].
  destruct (k a) as [t2 r] eqn:Hk. intros H. inversion H; subst.
  now exists t1, a, t2.
Qed.

Lemma run_agent_inr_inv (model : Model) (query system_prompt : string)
    (t : list (effect Model)) (answer : string) :
  _run_agent w model query system_prompt = (t, inr answer) ->
  yielded t = [].
Proof.
  unfold _run_agent. intros H.
  apply bind_inr_inv in H as (t1 & a & t2 & H1 & H2 & ->).
  inversion H1; subst. inversion H2; subst. reflexivity.
Qed.

(** The stages of the steps a trace yielded. *)
Local Abbreviation stages t := (map stage (step_payloads (yielded t))).

Lemma stages_app (t1 t2 : list (effect Model)) :
  stages (t1 ++ t2) = (stages t1 ++ stages t2)%list.
Proof. now rewrite yielded_app, step_payloads_app, map_app. Qed.

Lemma for_each_stages {A S : Type} (block : list string) (xs : list A)
    (body : A -> S -> Gen Model S) :
  (forall x s t s', body x s = (t, inr s') -> stages t = block) ->
  forall s t s',
    for_each xs s body = (t, inr s') ->
    stages t = concat (repeat block (List.length xs)).
Proof.
  intros Hbody. induction xs as [|x xs IH]; intros s t s' H; simpl in *.
  - inversion H; subst. reflexivity.
  - apply bind_inr_inv in H as (t1 & a & t2 & H1 & H2 & ->).
    rewrite stages_app, (Hbody _ _ _ _ H1), (IH _ _ _ H2). reflexivity.
Qed.

Lemma concat_repeat_singleton {A : Type} (x : A) (n : nat) :
  concat (repeat [x] n) = repeat x n.
Proof. induction n as [|n IH]; simpl; [reflexivity|]. now rewrite IH. Qed.

Ltac invert_bind H H1 :=
  let t1 := fresh "t" in
  let a := fresh "a" in
  let t2 := fresh "t" in
  apply bind_inr_inv in H as (t1 & a & t2 & H1 & H & ->);
  cbv beta iota zeta in H.

Ltac invert_call H :=
  let t1 := fresh "t" in
  let a := fresh "a" in
  let t2 := fresh "t" in
  let H1 := fresh "Hcall" in
  apply bind_inr_inv in H as (t1 & a & t2 & H1 & H & ->);
  cbv beta iota zeta in H;
  unfold call, yield in H1; inversion H1; subst; clear H1.

(** One agent-backed step: the stage of what the body of a loop yields. *)
Lemma agent_step_stages (model : Model) (query prompt : string)
    (mk : string -> DebateStep) (next : string -> list string)
    (name : string) (t : list (effect Model)) (s' : list string) :
  (forall response, stage (mk response) = name) ->
  bind (_run_agent w model query prompt)
       (fun response =>
          bind (yield (EvStep (mk response))) (fun _ => ret (next response)))
  = (t, inr s') ->
  stages t = [name].
Proof.
  intros Hname H.
  apply bind_inr_inv in H as (t1 & response & t2 & H1 & H2 & ->).
  apply run_agent_inr_inv in H1.
  apply bind_inr_inv in H2 as (t3 & u & t4 & H3 & H4 & ->).
  inversion H3; subst. inversion H4; subst.
  rewrite !yielded_app, H1. simpl. now rewrite Hname.
Qed.

Lemma completed_run_stages (limit : Z) (documents : list string)
    (query model_name : string) (top_k rounds : Z)
    (trace : list (effect Model)) :
  stream_debate_with w limit documents query model_name top_k rounds
  = (trace, inr tt) ->
  exists (R : nat) final_answer stats,
    List.last (yielded trace) EvSentinel = EvDone final_answer stats query
    /\ dict_get "retrieved" stats = Some (PInt (Z.of_nat R))
    /\ map stage (step_payloads (yielded trace))
       = (["setup"; "indexing"; "setup"; "retrieval"]
          ++ repeat "evidence" R
          ++ ["ambiguity"]
          ++ concat (repeat (repeat "debate" R ++ ["ambiguity"])%list
                            (Z.to_nat rounds))
          ++ ["synthesis"])%list.
Proof.
  unfold stream_debate_with. intros H.
  destruct (env_missing _); [discriminate H|].
  cbv zeta in H. destruct (clean_documents documents) as [|d ds];
    [discriminate H|].
  invert_call H. invert_call H. invert_call H.
  invert_call H. invert_call H. invert_call H. invert_call H.
  invert_call H. invert_call H.
  (* the evidence loop *)
  invert_bind H Hevidence.
  match type of Hevidence with
  | for_each (enumerate 1 ?docs) _ _ = _ => rename docs into retrieved
  end.
  apply (for_each_stages ["evidence"]) in Hevidence.
  2:{ intros [idx doc] acc t' s' Hbody.
      apply (agent_step_stages _ _ _
               (fun response =>
                  {| stage := "evidence";
                     speaker := "Doc Agent " ++ str_of_Z idx;
                     message := response; round := Some 0;
                     doc_id := dict_get "doc_id" (metadata doc) |})
               (fun response => (acc ++ [response])%list) "evidence")
        in Hbody; [exact Hbody|reflexivity]. }
  rewrite enumerate_length, concat_repeat_singleton in Hevidence.
  (* the first ambiguity check *)
  invert_bind H Hguidance. apply run_agent_inr_inv in Hguidance.
  invert_call H.
  (* the debate rounds *)
  invert_bind H Hrounds.
  match type of Hrounds with
  | _ = (_, inr ?st) => destruct st as [final_results final_guidance]
  end.
  apply (for_each_stages
           (repeat "debate" (List.length retrieved) ++ ["ambiguity"])%list)
    in Hrounds.
  2:{ intros r [answers_before guidance_before] t' s' Hbody.
      cbv beta iota zeta in Hbody.
      invert_bind Hbody Hdebate.
      apply (for_each_stages ["debate"]) in Hdebate.
      2:{ intros [idx doc] acc t'' s'' Hinner.
          apply (agent_step_stages _ _ _
                   (fun response =>
                      {| stage := "debate";
                         speaker := "Debater " ++ str_of_Z idx;
                         message := response; round := Some r;
                         doc_id := dict_get "doc_id" (metadata doc) |})
                   (fun response => (acc ++ [response])%list) "debate")
            in Hinner; [exact Hinner|reflexivity]. }
      rewrite enumerate_length, concat_repeat_singleton in Hdebate.
      invert_bind Hbody Hcheck. apply run_agent_inr_inv in Hcheck.
      invert_call Hbody. inversion Hbody; subst.
      rewrite !stages_app, Hdebate, Hcheck. reflexivity. }
  rewrite range_length in Hrounds.
  replace (rounds + 1 - 1) with rounds in Hrounds by lia.
  cbv beta iota zeta in H.
  (* synthesis and the done event *)
  invert_bind H Hfinal. apply run_agent_inr_inv in Hfinal.
  invert_call H. inversion H; subst.
  exists (List.length retrieved). eexists; eexists. split; [|split].
  - rewrite !app_assoc, yielded_app. apply last_last.
  - reflexivity.
  - rewrite !stages_app, Hevidence, Hrounds, Hguidance, Hfinal. reflexivity.
Qed.

(** X17. In any world, a run that ends normally has the stage sequence of
    the protocol, with [R] the number of retrieved chunks its done event
    reports: setup, indexing, setup, retrieval, [R] times evidence,
    ambiguity, then per debate round [R] times debate and one ambiguity,
    then synthesis; so it has [6 + R + rounds * (R + 1)] steps, a negative
    [rounds] counting as 0. *)
Theorem completed_run_stage_sequence (limit : Z) (documents : list string)
    (query model_name : string) (top_k rounds : Z)
    (trace : list (effect Model)) :
  stream_debate_with w limit documents query model_name top_k rounds
  = (trace, inr tt) ->
  exists (R : nat) final_answer stats,
    List.last (yielded trace) EvSentinel = EvDone final_answer stats query
    /\ dict_get "retrieved" stats = Some (PInt (Z.of_nat R))
    /\ map stage (step_payloads (yielded trace))
       = (["setup"; "indexing"; "setup"; "retrieval"]
          ++ repeat "evidence" R
          ++ ["ambiguity"]
          ++ concat (repeat (repeat "debate" R ++ ["ambiguity"])%list
                            (Z.to_nat rounds))
          ++ ["synthesis"])%list
    /\ len (step_payloads (yielded trace))
       = 6 + Z.of_nat R + Z.max 0 rounds * (Z.of_nat R + 1).
Proof.
  intros Hrun.
  destruct (completed_run_stages limit documents query model_name top_k rounds
              trace Hrun) as (R & fa & stats & Hlast & Hstats & Hstages).
  exists R, fa, stats. repeat split; try assumption.
  unfold len. rewrite <- (length_map stage), Hstages.
  rewrite !length_app, length_concat_repeat, length_app, !repeat_length.
  simpl List.length. nia.
Qed.

End AnyWorldStages.

Lemma completed_run_stage_sequence_witness :
  exists (R : nat) final_answer stats,
    List.last
      (yielded (fst (stream_debate_with Demo.demo_world 200 Demo.two_documents
                       Demo.demo_query DEFAULT_MODEL 1 2)))
      EvSentinel
    = EvDone final_answer stats Demo.demo_query
    /\ dict_get "retrieved" stats = Some (PInt (Z.of_nat R))
    /\ len (step_payloads
              (yielded (fst (stream_debate_with Demo.demo_world 200
                               Demo.two_documents Demo.demo_query
                               DEFAULT_MODEL 1 2))))
       = 6 + Z.of_nat R + Z.max 0 2 * (Z.of_nat R + 1).
Proof.
  destruct (completed_run_stage_sequence Demo.demo_world 200 Demo.two_documents
              Demo.demo_query DEFAULT_MODEL 1 2
              (fst (stream_debate_with Demo.demo_world 200 Demo.two_documents
                      Demo.demo_query DEFAULT_MODEL 1 2)))
    as (R & fa & stats & Hlast & Hstats & _ & Hlen).
  - vm_compute. reflexivity.
  - exists R, fa, stats. auto.
Defined.
